(** * Start-up sequence of the PHOEBE graphical front end

    A shallow embedding of [phoebe_gui_main.c]: the command-line parser
    [parse_startup_line] and the bootstrap function [main].  Calls into the
    toolkit, the engine library and the other GUI modules are recorded as
    events of a call log; what those collaborators answer is taken from an
    environment record.  The two widget factories of the file are compiled
    only under [__MINGW32__] and are toolkit adapters; they are not embedded. *)

From Stdlib Require Import ZArith List String Ascii Bool Lia.
Import ListNotations.

Local Open Scope string_scope.
Local Open Scope list_scope.

(* ================================================================== *)
(** ** C strings *)

Module CStr.

Notation "s1 +++ s2" := (String.append s1 s2)
  (at level 60, right associativity).

(** The line feed written [\n] in the C literals. *)
Definition nl : string := String (ascii_of_nat 10) EmptyString.

(** [strcmp]: negative, zero or positive as the first string is below,
    equal to or above the second one; characters compare as unsigned
    codes, and the end of a string is below every character. *)
Fixpoint strcmp (s1 s2 : string) : Z :=
  match s1, s2 with
  | EmptyString, EmptyString => 0
  | EmptyString, String _ _ => -1
  | String _ _, EmptyString => 1
  | String c1 r1, String c2 r2 =>
      match N.compare (N_of_ascii c1) (N_of_ascii c2) with
      | Eq => strcmp r1 r2
      | Lt => -1
      | Gt => 1
      end
  end%Z.

(** [s[0]]: the first character, which for the empty string is its
    terminating NUL. *)
Definition char0 (s : string) : ascii :=
  match s with
  | EmptyString => zero
  | String c _ => c
  end.

(** [strdup] returns a pointer to a copy; [None] stands for [NULL]. *)
Definition strdup (s : string) : option string := Some s.

End CStr.
Import CStr.

(* ================================================================== *)
(** ** Engine types seen by this file *)

(** Modelled from the spec: the status enumeration is declared in the
    engine's header [phoebe/phoebe.h], which is not among the sources.  The
    four enumerators this file names are kept; [OTHER_STATUS] stands for every
    other enumerator (the "other-error" outcome of the collaborator
    interface). *)
Inductive status : Type :=
| SUCCESS
| ERROR_PHOEBE_CONFIG_SUPPORTED_FILE
| ERROR_PHOEBE_CONFIG_LEGACY_FILE
| ERROR_PHOEBE_CONFIG_NOT_FOUND
| OTHER_STATUS (code : nat).

Definition status_eqb (a b : status) : bool :=
  match a, b with
  | SUCCESS, SUCCESS => true
  | ERROR_PHOEBE_CONFIG_SUPPORTED_FILE, ERROR_PHOEBE_CONFIG_SUPPORTED_FILE => true
  | ERROR_PHOEBE_CONFIG_LEGACY_FILE, ERROR_PHOEBE_CONFIG_LEGACY_FILE => true
  | ERROR_PHOEBE_CONFIG_NOT_FOUND, ERROR_PHOEBE_CONFIG_NOT_FOUND => true
  | OTHER_STATUS n, OTHER_STATUS m => Nat.eqb n m
  | _, _ => false
  end.

(** The one type tag of the engine that this file passes on. *)
Inductive PHOEBE_type : Type := TYPE_BOOL.

(** Process exit status handed to [exit]. *)
Definition EXIT_SUCCESS : Z := 0%Z.

(* ================================================================== *)
(** ** Calls to collaborators, and the process state *)

Inductive event : Type :=
| EvGtkSetLocale
| EvGtkInit
| EvGladeInit
| EvPhoebeInit
| EvPrintf (text : string)
| EvConfigEntryAdd (type : PHOEBE_type) (qualifier : string) (default : bool)
| EvPhoebeConfigure
| EvPhoebeGuiInit
| EvOpenParameterFile (filename : string)
| EvGuiOutput (text : string)
| EvReinitTreeviews
| EvSetValuesToWidgets
| EvGuiNotice (title description : string)
| EvShowConfigurationDialog
| EvGtkMain
| EvPhoebeGuiQuit
| EvPhoebeQuit.

(** The call log (oldest call first) and the two globals the parser
    assigns. *)
Record world : Type := mkWorld {
  calls : list event;
  PHOEBE_FILEFLAG : bool;
  PHOEBE_FILENAME : option string
}.

Definition log (e : event) (w : world) : world :=
  mkWorld (calls w ++ [e]) (PHOEBE_FILEFLAG w) (PHOEBE_FILENAME w).

Definition logs (es : list event) (w : world) : world :=
  mkWorld (calls w ++ es) (PHOEBE_FILEFLAG w) (PHOEBE_FILENAME w).

(** What the collaborators answer, and the two release macros of the build
    configuration. *)
Record Env : Type := mkEnv {
  PHOEBE_GUI_RELEASE_NAME : string;
  PHOEBE_GUI_RELEASE_DATE : string;
  (** the argument vector [gtk_init] leaves behind (it removes the options
      the toolkit consumes) *)
  gtk_init_argv : list string -> list string;
  phoebe_init_status : status;
  phoebe_configure_status : status;
  phoebe_open_parameter_file_status : string -> status;
  phoebe_error : status -> string;
  phoebe_gui_error : status -> string;
  (** whether the host event loop ever hands control back *)
  gtk_main_returns : bool
}.

Definition with_configure_status (E : Env) (s : status) : Env :=
  mkEnv (PHOEBE_GUI_RELEASE_NAME E) (PHOEBE_GUI_RELEASE_DATE E)
        (gtk_init_argv E) (phoebe_init_status E) s
        (phoebe_open_parameter_file_status E) (phoebe_error E)
        (phoebe_gui_error E) (gtk_main_returns E).

(* ================================================================== *)
(** ** The monad of the embedding: state, call log, early termination *)

Inductive outcome (A : Type) : Type :=
| Returned (a : A)          (* the call came back with a value *)
| Exited (code : Z)         (* the process was terminated with this status *)
| Hung.                     (* control never came back *)
Arguments Returned {A} a.
Arguments Exited {A} code.
Arguments Hung {A}.

Definition M (A : Type) : Type := world -> outcome A * world.

Definition ret {A} (a : A) : M A := fun w => (Returned a, w).

Definition bind {A B} (m : M A) (k : A -> M B) : M B :=
  fun w =>
    match m w with
    | (Returned a, w') => k a w'
    | (Exited c, w') => (Exited c, w')
    | (Hung, w') => (Hung, w')
    end.

Notation "x <- c1 ;; c2" := (bind c1 (fun x => c2))
  (at level 61, c1 at next level, right associativity).
Notation "c1 ;; c2" := (bind c1 (fun _ => c2))
  (at level 61, right associativity).

Definition call {A} (e : event) (a : A) : M A :=
  fun w => (Returned a, log e w).

(** [exit (code)] of the C library. *)
Definition exit {A} (code : Z) : M A := fun w => (Exited code, w).

Definition set_PHOEBE_FILEFLAG (b : bool) : M unit :=
  fun w => (Returned tt, mkWorld (calls w) b (PHOEBE_FILENAME w)).

Definition set_PHOEBE_FILENAME (p : option string) : M unit :=
  fun w => (Returned tt, mkWorld (calls w) (PHOEBE_FILEFLAG w) p).

(* ================================================================== *)
(** ** Collaborators *)

Section Collaborators.

Variable E : Env.

Definition printf (text : string) : M unit := call (EvPrintf text) tt.

Definition gtk_set_locale : M unit := call EvGtkSetLocale tt.

(** [gtk_init (&argc, &argv)] rewrites both; the new pair is returned. *)
Definition gtk_init (argv : list string) : M (nat * list string) :=
  call EvGtkInit (List.length (gtk_init_argv E argv), gtk_init_argv E argv).

Definition glade_init : M unit := call EvGladeInit tt.

Definition phoebe_init : M status := call EvPhoebeInit (phoebe_init_status E).

Definition phoebe_config_entry_add
    (type : PHOEBE_type) (qualifier : string) (default : bool) : M unit :=
  call (EvConfigEntryAdd type qualifier default) tt.

Definition phoebe_configure : M status :=
  call EvPhoebeConfigure (phoebe_configure_status E).

Definition phoebe_gui_init : M unit := call EvPhoebeGuiInit tt.

Definition phoebe_open_parameter_file (filename : string) : M status :=
  call (EvOpenParameterFile filename)
       (phoebe_open_parameter_file_status E filename).

Definition phoebe_gui_output (text : string) : M unit :=
  call (EvGuiOutput text) tt.

Definition gui_reinit_treeviews : M unit := call EvReinitTreeviews tt.

Definition gui_set_values_to_widgets : M unit := call EvSetValuesToWidgets tt.

Definition gui_notice (title description : string) : M unit :=
  call (EvGuiNotice title description) tt.

Definition gui_show_configuration_dialog : M unit :=
  call EvShowConfigurationDialog tt.

Definition gtk_main : M unit :=
  fun w => if gtk_main_returns E
           then (Returned tt, log EvGtkMain w)
           else (Hung, log EvGtkMain w).

Definition phoebe_gui_quit : M unit := call EvPhoebeGuiQuit tt.

(** Modelled from the spec: [phoebe_quit] is defined in the engine library,
    not in this file.  It is the engine's teardown, and the spec has the
    places that call it "terminate the process with success status
    immediately". *)
Definition phoebe_quit : M status :=
  fun w => (Exited EXIT_SUCCESS, log EvPhoebeQuit w).

End Collaborators.

(* ================================================================== *)
(** ** The program *)

Section Program.

Variable E : Env.

(** The body of the [for] loop of [parse_startup_line], at [argv[i] = arg]. *)
Definition parse_startup_line_body (arg : string) : M unit :=
  (if ((strcmp arg "-h" =? 0) || (strcmp arg "-?" =? 0)
       || (strcmp arg "--help" =? 0))%Z
   then
     printf (nl +++ PHOEBE_GUI_RELEASE_NAME E
             +++ " command line arguments: [-hv] [parameter_file]"
             +++ nl +++ nl) ;;
     printf ("  -h, --help, -?      ..  this help screen" +++ nl) ;;
     printf ("  -v, --version       ..  display PHOEBE version and exit"
             +++ nl) ;;
     printf nl ;;
     phoebe_quit ;;
     ret tt
   else ret tt) ;;
  (if ((strcmp arg "-v" =? 0) || (strcmp arg "--version" =? 0))%Z
   then
     printf (nl +++ PHOEBE_GUI_RELEASE_NAME E +++ ", "
             +++ PHOEBE_GUI_RELEASE_DATE E +++ nl) ;;
     printf ("  Send comments and/or requests to phoebe-discuss@lists.sourceforge.net"
             +++ nl +++ nl) ;;
     phoebe_quit ;;
     ret tt
   else ret tt) ;;
  (if negb (Ascii.eqb (char0 arg) "-")
   then
     (* no leading '-': the argument is a parameter file *)
     status <- phoebe_open_parameter_file E arg ;;
     if negb (status_eqb status SUCCESS)
     then phoebe_gui_output (phoebe_error E status)
     else
       gui_reinit_treeviews ;;
       gui_set_values_to_widgets ;;
       set_PHOEBE_FILEFLAG true ;;
       set_PHOEBE_FILENAME (strdup arg)
   else ret tt).

(** [for (i = ...; i < argc; i++)], entered at index [i]; [n] bounds the
    number of iterations still to run. *)
Fixpoint parse_startup_line_from
    (n i argc : nat) (argv : list string) : M unit :=
  match n with
  | O => ret tt
  | S n' =>
      if (i <? argc)%nat
      then parse_startup_line_body (nth i argv EmptyString) ;;
           parse_startup_line_from n' (S i) argc argv
      else ret tt
  end.

Definition parse_startup_line (argc : nat) (argv : list string) : M status :=
  parse_startup_line_from argc 1 argc argv ;;
  ret SUCCESS.

Definition main (argv : list string) : M status :=
  let configswitch := false in
  gtk_set_locale ;;
  args <- gtk_init E argv ;;
  let argc := fst args in
  let argv := snd args in
  glade_init ;;
  status <- phoebe_init E ;;
  (if negb (status_eqb status SUCCESS)
   then printf (phoebe_gui_error E status) ;; exit 0
   else ret tt) ;;
  (* Add all GUI-related options here: *)
  phoebe_config_entry_add TYPE_BOOL "GUI_CONFIRM_ON_OVERWRITE" true ;;
  phoebe_config_entry_add TYPE_BOOL "GUI_BEEP_AFTER_PLOT_AND_FIT" false ;;
  status <- phoebe_configure E ;;
  let configswitch :=
    if status_eqb status ERROR_PHOEBE_CONFIG_SUPPORTED_FILE
       || status_eqb status ERROR_PHOEBE_CONFIG_LEGACY_FILE
       || status_eqb status ERROR_PHOEBE_CONFIG_NOT_FOUND
    then true else configswitch in
  phoebe_gui_init ;;
  parse_startup_line argc argv ;;
  (if status_eqb status ERROR_PHOEBE_CONFIG_NOT_FOUND
   then gui_notice "Welcome to PHOEBE!"
          "PHOEBE will create a configuration directory and take you to the Settings window."
   else ret tt) ;;
  (if status_eqb status ERROR_PHOEBE_CONFIG_LEGACY_FILE
   then gui_notice "Importing legacy configuration file"
          "PHOEBE imported a legacy (pre-0.30) configuration file. Please review your settings and click on Save to store them permanently."
   else ret tt) ;;
  (if status_eqb status ERROR_PHOEBE_CONFIG_SUPPORTED_FILE
   then gui_notice "Importing recent configuration file"
          "PHOEBE imported your previous configuration file. Please review your settings and click on Save to store them permanently."
   else ret tt) ;;
  (if configswitch then gui_show_configuration_dialog else ret tt) ;;
  gtk_main E ;;
  phoebe_gui_quit ;;
  phoebe_quit ;;
  ret SUCCESS.

End Program.

(* ================================================================== *)
(** ** The specification's vocabulary *)

Module Spec.

(** The result of classifying one command-line token. *)
Inductive ArgAction : Type :=
| Help
| Version
| ParamFile (path : string)
| Unrecognized (path : string).

Definition is_help (token : string) : bool :=
  String.eqb token "-h" || String.eqb token "-?" || String.eqb token "--help".

Definition is_version (token : string) : bool :=
  String.eqb token "-v" || String.eqb token "--version".

Definition starts_with_dash (token : string) : bool :=
  match token with
  | String c _ => Ascii.eqb c "-"
  | EmptyString => false
  end.

(** The four classification rules, tried in the order they are listed. *)
Definition classify (token : string) : ArgAction :=
  if is_help token then Help
  else if is_version token then Version
  else if starts_with_dash token then Unrecognized token
  else ParamFile token.

(** A token that ends the process once it is reached. *)
Definition is_quit (token : string) : bool := is_help token || is_version token.

(** The classification of the on-disk configuration. *)
Inductive ConfigStatus : Type :=
| Current
| ImportedSupported
| ImportedLegacy
| NotFound.

(** The engine status each classification stands for. *)
Definition code_of (c : ConfigStatus) : status :=
  match c with
  | Current => SUCCESS
  | ImportedSupported => ERROR_PHOEBE_CONFIG_SUPPORTED_FILE
  | ImportedLegacy => ERROR_PHOEBE_CONFIG_LEGACY_FILE
  | NotFound => ERROR_PHOEBE_CONFIG_NOT_FOUND
  end.

Definition welcome_notice : event :=
  EvGuiNotice "Welcome to PHOEBE!"
    "PHOEBE will create a configuration directory and take you to the Settings window.".

Definition legacy_import_notice : event :=
  EvGuiNotice "Importing legacy configuration file"
    "PHOEBE imported a legacy (pre-0.30) configuration file. Please review your settings and click on Save to store them permanently.".

Definition recent_import_notice : event :=
  EvGuiNotice "Importing recent configuration file"
    "PHOEBE imported your previous configuration file. Please review your settings and click on Save to store them permanently.".

(** The notice mapped to each status, as the list of notices to emit. *)
Definition notice_of (c : ConfigStatus) : list event :=
  match c with
  | NotFound => [welcome_notice]
  | ImportedLegacy => [legacy_import_notice]
  | ImportedSupported => [recent_import_notice]
  | Current => []
  end.

(** The settings dialog, opened for every status but [Current]. *)
Definition dialog_of (c : ConfigStatus) : list event :=
  match c with
  | Current => []
  | _ => [EvShowConfigurationDialog]
  end.

Section Actions.

Variable E : Env.

(** What the usage screen and the version screen send to standard output. *)
Definition usage_text : list event :=
  [ EvPrintf (nl +++ PHOEBE_GUI_RELEASE_NAME E
              +++ " command line arguments: [-hv] [parameter_file]"
              +++ nl +++ nl);
    EvPrintf ("  -h, --help, -?      ..  this help screen" +++ nl);
    EvPrintf ("  -v, --version       ..  display PHOEBE version and exit"
              +++ nl);
    EvPrintf nl ].

Definition version_text : list event :=
  [ EvPrintf (nl +++ PHOEBE_GUI_RELEASE_NAME E +++ ", "
              +++ PHOEBE_GUI_RELEASE_DATE E +++ nl);
    EvPrintf ("  Send comments and/or requests to phoebe-discuss@lists.sourceforge.net"
              +++ nl +++ nl) ].

(** The calls a parameter-file argument gives rise to. *)
Definition load_calls (path : string) : list event :=
  match phoebe_open_parameter_file_status E path with
  | SUCCESS =>
      [EvOpenParameterFile path; EvReinitTreeviews; EvSetValuesToWidgets]
  | st => [EvOpenParameterFile path; EvGuiOutput (phoebe_error E st)]
  end.

Definition loads (path : string) : bool :=
  status_eqb (phoebe_open_parameter_file_status E path) SUCCESS.

(** Interpretation of one action by the start-up controller. *)
Definition perform (a : ArgAction) : M unit :=
  fun w =>
    match a with
    | Help => (Exited EXIT_SUCCESS, logs (usage_text ++ [EvPhoebeQuit]) w)
    | Version => (Exited EXIT_SUCCESS, logs (version_text ++ [EvPhoebeQuit]) w)
    | ParamFile path =>
        if loads path
        then (Returned tt, mkWorld (calls w ++ load_calls path) true (Some path))
        else (Returned tt, logs (load_calls path) w)
    | Unrecognized _ => (Returned tt, w)
    end.

(** The actions are interpreted in order; an action that terminates the
    process ends the interpretation. *)
Fixpoint perform_all (actions : list ArgAction) : M unit :=
  match actions with
  | [] => ret tt
  | a :: rest => perform a ;; perform_all rest
  end.

(** The path of the last parameter file that loaded, if any did. *)
Definition last_loaded (paths : list string) : option string :=
  fold_left (fun acc p => if loads p then Some p else acc) paths None.

(** The file state a run over parameter-file paths ends in. *)
Definition file_state_after (w : world) (paths : list string)
  : bool * option string :=
  match last_loaded paths with
  | Some p => (true, Some p)
  | None => (PHOEBE_FILEFLAG w, PHOEBE_FILENAME w)
  end.

End Actions.

End Spec.
Import Spec.

(* ================================================================== *)
(** ** Vocabulary for call logs *)

(** The calls [main] makes up to and including engine initialisation. *)
Definition boot_calls : list event :=
  [EvGtkSetLocale; EvGtkInit; EvGladeInit; EvPhoebeInit].

(** The registration of the two GUI options. *)
Definition confirm_on_overwrite_option : event :=
  EvConfigEntryAdd TYPE_BOOL "GUI_CONFIRM_ON_OVERWRITE" true.

Definition beep_after_plot_and_fit_option : event :=
  EvConfigEntryAdd TYPE_BOOL "GUI_BEEP_AFTER_PLOT_AND_FIT" false.

(** The calls [main] makes between the return of the parser and the event
    loop, for a configuration status [st]. *)
Definition review_calls (st : status) : list event :=
  (if status_eqb st ERROR_PHOEBE_CONFIG_NOT_FOUND
   then [welcome_notice] else [])
  ++ (if status_eqb st ERROR_PHOEBE_CONFIG_LEGACY_FILE
      then [legacy_import_notice] else [])
  ++ (if status_eqb st ERROR_PHOEBE_CONFIG_SUPPORTED_FILE
      then [recent_import_notice] else [])
  ++ (if status_eqb st ERROR_PHOEBE_CONFIG_SUPPORTED_FILE
         || status_eqb st ERROR_PHOEBE_CONFIG_LEGACY_FILE
         || status_eqb st ERROR_PHOEBE_CONFIG_NOT_FOUND
      then [EvShowConfigurationDialog] else []).

(** Everything [main] calls before it calls the parser. *)
Definition setup_calls : list event :=
  boot_calls
  ++ [confirm_on_overwrite_option; beep_after_plot_and_fit_option;
      EvPhoebeConfigure; EvPhoebeGuiInit].

(** The event loop and what [main] calls once it has returned. *)
Definition event_loop_calls (E : Env) : list event :=
  if gtk_main_returns E
  then [EvGtkMain; EvPhoebeGuiQuit; EvPhoebeQuit]
  else [EvGtkMain].

Definition is_notice_or_dialog (e : event) : bool :=
  match e with
  | EvGuiNotice _ _ | EvShowConfigurationDialog => true
  | _ => false
  end.

(** The calls the parser can make. *)
Definition parser_call (e : event) : bool :=
  match e with
  | EvPrintf _ | EvPhoebeQuit | EvOpenParameterFile _ | EvGuiOutput _
  | EvReinitTreeviews | EvSetValuesToWidgets => true
  | _ => false
  end.

(** The calls a run of [main] adds to the log of the world it starts in. *)
Definition emitted_by (E : Env) (argv : list string) (w : world)
    (es : list event) : Prop :=
  calls (snd (main E argv w)) = calls w ++ es.

(** "After the event loop has returned, the calls that follow are
    [order]", for one run. *)
Definition teardown_after_event_loop
    (order : list event) (E : Env) (argv : list string) (w : world) : Prop :=
  forall before after,
    emitted_by E argv w (before ++ EvGtkMain :: after) -> after = order.

(** A sample environment: configuration up to date, ["model.phoebe"] is the
    one parameter file that loads, the event loop returns. *)
Definition sample_env : Env :=
  mkEnv "PHOEBE-gui" "2009-06-01"
        (fun argv => argv)
        SUCCESS SUCCESS
        (fun path => if String.eqb path "model.phoebe"
                     then SUCCESS else OTHER_STATUS 1)
        (fun _ => "file not found")
        (fun _ => "engine start-up failed")
        true.

Definition with_init_status (E : Env) (s : status) : Env :=
  mkEnv (PHOEBE_GUI_RELEASE_NAME E) (PHOEBE_GUI_RELEASE_DATE E)
        (gtk_init_argv E) s (phoebe_configure_status E)
        (phoebe_open_parameter_file_status E) (phoebe_error E)
        (phoebe_gui_error E) (gtk_main_returns E).

Definition empty_world : world := mkWorld [] false None.

(* ================================================================== *)
(** ** Vocabulary for whole runs of the parser *)

(** The arguments the parser gets to: those before the first help or
    version switch. *)
Fixpoint reached (args : list string) : list string :=
  match args with
  | [] => []
  | t :: rest => if is_quit t then [] else t :: reached rest
  end.

(** Among them, the ones that do not start with a dash. *)
Definition opened_paths (args : list string) : list string :=
  filter (fun t => negb (starts_with_dash t)) (reached args).

(** What the first help or version switch, if there is one, makes the
    parser call. *)
Definition quit_calls (E : Env) (args : list string) : list event :=
  match find is_quit args with
  | Some t => (if is_help t then usage_text E else version_text E)
              ++ [EvPhoebeQuit]
  | None => []
  end.

(** An option the parser does not know. *)
Definition is_unrecognized (t : string) : bool :=
  starts_with_dash t && negb (is_quit t).

Definition is_notice (e : event) : bool :=
  match e with
  | EvGuiNotice _ _ => true
  | _ => false
  end.

(* ================================================================== *)
(** ** The MinGW build: program name and widget factories

    The code between [#ifdef __MINGW32__] and [#endif]: the lines of [main]
    that set [PROGRAM_NAME], and the two factories registered with the UI
    builder for widget classes it does not know. *)

(** [strstr (haystack, needle)]: the offset of the first occurrence of
    [needle], [None] for the null pointer. *)
Fixpoint strstr (haystack needle : string) : option nat :=
  if String.prefix needle haystack then Some 0
  else match haystack with
       | EmptyString => None
       | String _ rest => option_map S (strstr rest needle)
       end.

(** [PROGRAM_NAME] as [main] leaves it, from what [basename (argv[0])]
    returned: [*exe = 0] cuts the string at the offset [strstr] found. *)
Definition main_PROGRAM_NAME (base : string) : string :=
  match strstr base ".exe" with
  | Some offset => String.substring 0 offset base
  | None => base
  end.

(** A name and value pair of the UI description, and the properties of one
    widget ([n_properties] is the length of the list). *)
Record GladeProperty : Type := mkProperty {
  name : string;
  value : string
}.

Record GladeWidgetInfo : Type := mkInfo {
  properties : list GladeProperty
}.

Inductive GtkFileChooserAction : Type :=
| GTK_FILE_CHOOSER_ACTION_OPEN
| GTK_FILE_CHOOSER_ACTION_SELECT_FOLDER.

(** A cell of a block of pointers obtained from [malloc]: not yet written,
    or holding a pointer ([None] is the null pointer). *)
Inductive cell : Type :=
| Uninitialised
| Pointer (p : option string).

(** The toolkit calls the factories make. *)
Inductive gtk_call : Type :=
| GtkFileChooserButtonNew (title : option string) (action : GtkFileChooserAction)
| GtkWidgetShow
| GtkFileChooserButtonSetWidthChars (n : Z)
| GtkAboutDialogNew
| GtkAboutDialogSetProgramName (s : string)
| GtkAboutDialogSetVersion (s : string)
| GtkAboutDialogSetComments (s : string)
| GtkAboutDialogSetLicense (s : string)
| GtkAboutDialogSetWebsite (s : string)
| GtkAboutDialogSetWebsiteLabel (s : string)
| GtkAboutDialogSetAuthors (block : list cell)
| GtkAboutDialogSetDocumenters (block : list cell)
| FreeDocumenters.

(** What a fragment that writes through pointers comes to: a value, a write
    outside the allocated block (undefined in C), or the iteration bound of
    the embedding reached. *)
Inductive result (A : Type) : Type :=
| Done (a : A)
| Undefined
| NoFuel.
Arguments Done {A} a.
Arguments Undefined {A}.
Arguments NoFuel {A}.

(** [malloc (n * sizeof (gchar * ))]. *)
Definition malloc_pointers (n : nat) : list cell := repeat Uninitialised n.

(** [block[j] = p]. *)
Definition store (block : list cell) (j : nat) (p : option string)
  : option (list cell) :=
  if (j <? List.length block)%nat
  then Some (firstn j block ++ Pointer p :: skipn (S j) block)
  else None.

(** [strchr (delims, c) != NULL]. *)
Fixpoint is_delim (c : ascii) (delims : string) : bool :=
  match delims with
  | EmptyString => false
  | String d rest => Ascii.eqb c d || is_delim c rest
  end.

Fixpoint skip_delims (delims s : string) : string :=
  match s with
  | EmptyString => EmptyString
  | String c rest => if is_delim c delims then skip_delims delims rest else s
  end.

(** The token at the head of [s] and the text after the delimiter that ends
    it (the empty text when the token runs to the end). *)
Fixpoint scan_token (delims s : string) : string * string :=
  match s with
  | EmptyString => (EmptyString, EmptyString)
  | String c rest =>
      if is_delim c delims then (EmptyString, rest)
      else let (t, saved) := scan_token delims rest in (String c t, saved)
  end.

(** [strtok], on the text it is to search: the first argument of the first
    call, the text from the saved pointer on for a call with [NULL].  It
    gives the token, or [None] for the null pointer, and the text from the
    newly saved pointer on; when there is no token that pointer is left at
    the end of the text, as the C libraries leave it. *)
Definition strtok (s delims : string) : option string * string :=
  match skip_delims delims s with
  | EmptyString => (None, EmptyString)
  | String c rest => let (t, saved) := scan_token delims (String c rest) in
                     (Some t, saved)
  end.

(** [while ((block[j++] = strtok (NULL, ",")));] *)
Fixpoint strtok_loop (fuel : nat) (saved : string) (block : list cell)
    (j : nat) : result (list cell) :=
  match fuel with
  | O => NoFuel
  | S fuel' =>
      let (t, saved') := strtok saved "," in
      match store block j t with
      | None => Undefined
      | Some block' =>
          match t with
          | Some _ => strtok_loop fuel' saved' block' (S j)
          | None => Done block'
          end
      end
  end.

(** The three lines that fill [authors] and [documenters] from a property
    value: [j = 0; block[j++] = strtok (value, "\n"); while (...);]. *)
Definition split_names (v : string) (block : list cell) : result (list cell) :=
  let (t, saved) := strtok v nl in
  match store block 0 t with
  | None => Undefined
  | Some block' => strtok_loop (S (String.length saved)) saved block' 1
  end.

Section FileChooserButton.

(** [atoi] of the C library. *)
Variable atoi : string -> Z.

Record chooser_locals : Type := mkChooser {
  width_chars : Z;
  action : GtkFileChooserAction;
  title : option string
}.

(** The body of the [for] loop of [gui_GtkFileChooserButton]. *)
Definition chooser_step (l : chooser_locals) (p : GladeProperty)
  : chooser_locals :=
  if (strcmp (name p) "width_chars" =? 0)%Z
  then mkChooser (atoi (value p)) (action l) (title l)
  else if (strcmp (name p) "action" =? 0)%Z
  then
    if (strcmp (value p) "GTK_FILE_CHOOSER_ACTION_SELECT_FOLDER" =? 0)%Z
    then mkChooser (width_chars l) GTK_FILE_CHOOSER_ACTION_SELECT_FOLDER
                   (title l)
    else l
  else if (strcmp (name p) "title" =? 0)%Z
  then mkChooser (width_chars l) (action l) (Some (value p))
  else l.

Definition gui_GtkFileChooserButton (info : GladeWidgetInfo) : list gtk_call :=
  let l := fold_left chooser_step (properties info)
             (mkChooser 0%Z GTK_FILE_CHOOSER_ACTION_OPEN None) in
  [GtkFileChooserButtonNew (title l) (action l); GtkWidgetShow]
  ++ (if (width_chars l >? 0)%Z
      then [GtkFileChooserButtonSetWidthChars (width_chars l)]
      else []).

End FileChooserButton.

Record about_locals : Type := mkAbout {
  program_name : string;
  version : string;
  comments : string;
  license : string;
  website : string;
  website_label : string;
  authors : list cell;
  documenters : list cell
}.

(** The body of the [for] loop of [gui_GtkAboutDialog]. *)
Definition about_step (l : about_locals) (p : GladeProperty)
  : result about_locals :=
  if (strcmp (name p) "program_name" =? 0)%Z
  then Done (mkAbout (value p) (version l) (comments l) (license l)
                     (website l) (website_label l) (authors l) (documenters l))
  else if (strcmp (name p) "version" =? 0)%Z
  then Done (mkAbout (program_name l) (value p) (comments l) (license l)
                     (website l) (website_label l) (authors l) (documenters l))
  else if (strcmp (name p) "comments" =? 0)%Z
  then Done (mkAbout (program_name l) (version l) (value p) (license l)
                     (website l) (website_label l) (authors l) (documenters l))
  else if (strcmp (name p) "license" =? 0)%Z
  then Done (mkAbout (program_name l) (version l) (comments l) (value p)
                     (website l) (website_label l) (authors l) (documenters l))
  else if (strcmp (name p) "website" =? 0)%Z
  then Done (mkAbout (program_name l) (version l) (comments l) (license l)
                     (value p) (website_label l) (authors l) (documenters l))
  else if (strcmp (name p) "website_label" =? 0)%Z
  then Done (mkAbout (program_name l) (version l) (comments l) (license l)
                     (website l) (value p) (authors l) (documenters l))
  else if (strcmp (name p) "authors" =? 0)%Z
  then
    match split_names (value p) (authors l) with
    | Done block =>
        Done (mkAbout (program_name l) (version l) (comments l) (license l)
                      (website l) (website_label l) block (documenters l))
    | Undefined => Undefined
    | NoFuel => NoFuel
    end
  else if (strcmp (name p) "documenters" =? 0)%Z
  then
    match split_names (value p) (documenters l) with
    | Done block =>
        Done (mkAbout (program_name l) (version l) (comments l) (license l)
                      (website l) (website_label l) (authors l) block)
    | Undefined => Undefined
    | NoFuel => NoFuel
    end
  else Done l.

(** [for (i = 0; i < info->n_properties; i++)], from the locals [l] on. *)
Fixpoint about_loop (props : list GladeProperty) (l : about_locals)
  : result about_locals :=
  match props with
  | [] => Done l
  | p :: rest =>
      match about_step l p with
      | Done l' => about_loop rest l'
      | Undefined => Undefined
      | NoFuel => NoFuel
      end
  end.

(** The locals of [gui_GtkAboutDialog] when its loop starts. *)
Definition about_start : about_locals :=
  mkAbout EmptyString EmptyString EmptyString EmptyString
          EmptyString EmptyString
          (malloc_pointers 30) (malloc_pointers 30).

(** [gui_GtkAboutDialog], in a process whose global [PROGRAM_NAME] is
    [PROGRAM_NAME] ([None] for the null pointer). *)
Definition gui_GtkAboutDialog (PROGRAM_NAME : option string)
    (info : GladeWidgetInfo) : result (list gtk_call) :=
  match about_loop (properties info) about_start with
  | Done l =>
      Done [ GtkAboutDialogNew;
             GtkAboutDialogSetProgramName
               (match PROGRAM_NAME with
                | Some n => n
                | None => program_name l
                end);
             GtkAboutDialogSetVersion (version l);
             GtkAboutDialogSetComments (comments l);
             GtkAboutDialogSetLicense (license l);
             GtkAboutDialogSetWebsite (website l);
             GtkAboutDialogSetWebsiteLabel (website_label l);
             GtkAboutDialogSetAuthors (authors l);
             GtkAboutDialogSetDocumenters (documenters l);
             FreeDocumenters ]
  | Undefined => Undefined
  | NoFuel => NoFuel
  end.

(** *** Vocabulary for the factories *)

(** The value of the last property called [key]. *)
Definition last_value (key : string) (props : list GladeProperty)
  : option string :=
  option_map value (find (fun p => String.eqb (name p) key) (rev props)).

Definition asks_for_folder (p : GladeProperty) : bool :=
  String.eqb (name p) "action"
  && String.eqb (value p) "GTK_FILE_CHOOSER_ACTION_SELECT_FOLDER".

(** A property the file chooser factory acts on. *)
Definition chooser_relevant (p : GladeProperty) : bool :=
  String.eqb (name p) "width_chars" || String.eqb (name p) "title"
  || asks_for_folder p.

(** The pieces of [s] between the occurrences of the character [d]. *)
Fixpoint split_at (d : ascii) (s : string) : list string :=
  match s with
  | EmptyString => [EmptyString]
  | String c rest =>
      if Ascii.eqb c d then EmptyString :: split_at d rest
      else match split_at d rest with
           | piece :: pieces => String c piece :: pieces
           | [] => [String c EmptyString]
           end
  end.

Definition nonempty (s : string) : bool :=
  match s with
  | EmptyString => false
  | String _ _ => true
  end.

(** The names listed between commas. *)
Definition comma_names (s : string) : list string :=
  filter nonempty (split_at ","%char s).

Fixpoint has_char (d : ascii) (s : string) : bool :=
  match s with
  | EmptyString => false
  | String c rest => Ascii.eqb c d || has_char d rest
  end.

(** Nothing but line feeds. *)
Fixpoint blank (s : string) : bool :=
  match s with
  | EmptyString => true
  | String c rest => Ascii.eqb c (ascii_of_nat 10) && blank rest
  end.

(** A block that starts with the given names and the null pointer that ends
    them, and goes on as [block] does. *)
Definition names_block (names : list string) (block : list cell)
  : list cell :=
  map (fun n => Pointer (Some n)) names
  ++ Pointer None :: skipn (S (List.length names)) block.

(** The text a property list gives for [key]: the value of the last property
    of that name, the empty string if there is none. *)
Definition text_of (key : string) (props : list GladeProperty) : string :=
  match last_value key props with
  | Some v => v
  | None => EmptyString
  end.

(* ================================================================== *)
(** ** Proof steps *)

(** Unfold the monad down to pairs of an outcome and a world. *)
Ltac run_monad :=
  unfold phoebe_quit, phoebe_gui_output, phoebe_open_parameter_file,
    gui_reinit_treeviews, gui_set_values_to_widgets, set_PHOEBE_FILEFLAG,
    set_PHOEBE_FILENAME, gtk_set_locale, gtk_init, glade_init, phoebe_init,
    phoebe_config_entry_add, phoebe_configure, phoebe_gui_init, gui_notice,
    gui_show_configuration_dialog, phoebe_gui_quit, printf, strdup;
  unfold bind, ret, exit, call, log, logs;
  cbn [fst snd calls PHOEBE_FILEFLAG PHOEBE_FILENAME].

(** Two worlds that differ only in how the call log is bracketed. *)
Ltac same_world :=
  cbn [calls PHOEBE_FILEFLAG PHOEBE_FILENAME];
  repeat rewrite <- app_assoc;
  cbn [app calls PHOEBE_FILEFLAG PHOEBE_FILENAME]; reflexivity.

(* ================================================================== *)
(** ** Basic facts *)

Lemma strcmp_refl (s : string) : strcmp s s = 0%Z.
Proof.
  induction s as [|c r IH]; simpl; [reflexivity|].
  now rewrite N.compare_refl.
Qed.

Lemma strcmp_zero (s1 s2 : string) : strcmp s1 s2 = 0%Z <-> s1 = s2.
Proof.
  split; [|intros ->; apply strcmp_refl].
  revert s2; induction s1 as [|c1 r1 IH]; intros [|c2 r2]; simpl;
    try reflexivity; try discriminate.
  destruct (N.compare (N_of_ascii c1) (N_of_ascii c2)) eqn:Hc;
    try discriminate.
  intros H. apply N.compare_eq in Hc.
  assert (c1 = c2) as ->.
  { rewrite <- (ascii_N_embedding c1), <- (ascii_N_embedding c2).
    now f_equal. }
  f_equal. now apply IH.
Qed.

Lemma strcmp_eqb (s1 s2 : string) :
  (strcmp s1 s2 =? 0)%Z = String.eqb s1 s2.
Proof.
  destruct (String.eqb s1 s2) eqn:He.
  - apply String.eqb_eq in He. apply Z.eqb_eq. now apply strcmp_zero.
  - apply String.eqb_neq in He. apply Z.eqb_neq.
    intros H. now apply He, strcmp_zero.
Qed.

Lemma status_eqb_eq (a b : status) : status_eqb a b = true <-> a = b.
Proof.
  destruct a, b; simpl; split; intros H;
    try reflexivity; try discriminate.
  - f_equal. now apply Nat.eqb_eq.
  - injection H as ->. apply Nat.eqb_refl.
Qed.

Lemma status_eqb_neq (a b : status) : status_eqb a b = false <-> a <> b.
Proof.
  rewrite <- status_eqb_eq. destruct (status_eqb a b); split;
    congruence.
Qed.

Lemma quit_starts_with_dash (t : string) :
  is_quit t = true -> starts_with_dash t = true.
Proof.
  unfold is_quit, is_help, is_version.
  rewrite !orb_true_iff, !String.eqb_eq.
  intros [[[-> | ->] | ->] | [-> | ->]]; reflexivity.
Qed.

Lemma forallb_weaken {A} (f g : A -> bool) (l : list A) :
  (forall x, f x = true -> g x = true) ->
  forallb f l = true -> forallb g l = true.
Proof.
  intros Hfg. rewrite !forallb_forall. auto.
Qed.

Lemma forallb_excludes {A} (f : A -> bool) (l : list A) (x : A) :
  forallb f l = true -> f x = false -> ~ In x l.
Proof.
  intros Hl Hx Hin. rewrite forallb_forall in Hl.
  specialize (Hl x Hin). congruence.
Qed.

(** A list splits in one way only around an element that occurs once. *)
Lemma split_once {A} (x : A) (l1 l2 p r : list A) :
  l1 ++ x :: l2 = p ++ x :: r -> ~ In x p -> ~ In x r -> l1 = p /\ l2 = r.
Proof.
  revert p; induction l1 as [|a l1 IH]; intros [|b p] H Hp Hr;
    cbn [app] in H.
  - injection H as ->. auto.
  - injection H as -> _. exfalso. apply Hp. now left.
  - injection H as -> <-. exfalso. apply Hr, in_elt.
  - injection H as -> H. destruct (IH p H) as [-> ->]; auto.
    intros Hin. apply Hp. now right.
Qed.

Lemma parser_call_not_review (e : event) :
  parser_call e = true -> negb (is_notice_or_dialog e) = true.
Proof. destruct e; cbn; congruence. Qed.

Lemma char0_dash (t : string) :
  Ascii.eqb (char0 t) "-" = starts_with_dash t.
Proof. destruct t; reflexivity. Qed.

(* ================================================================== *)
(** ** The parser, token by token *)

Section ParserFacts.

Variable E : Env.

Lemma body_perform (arg : string) (w : world) :
  parse_startup_line_body E arg w = perform E (classify arg) w.
Proof.
  unfold parse_startup_line_body, classify.
  rewrite !strcmp_eqb, char0_dash.
  change (String.eqb arg "-h" || String.eqb arg "-?" || String.eqb arg "--help")
    with (is_help arg).
  change (String.eqb arg "-v" || String.eqb arg "--version")
    with (is_version arg).
  destruct (is_help arg) eqn:Hh.
  - run_monad. unfold perform, usage_text, logs. f_equal. f_equal. same_world.
  - destruct (is_version arg) eqn:Hv.
    + run_monad. unfold perform, version_text, logs. f_equal. f_equal. same_world.
    + destruct (starts_with_dash arg) eqn:Hd.
      * reflexivity.
      * run_monad. unfold perform, loads, load_calls, logs.
        destruct (phoebe_open_parameter_file_status E arg);
          cbn [status_eqb negb]; f_equal; f_equal; same_world.
Qed.

Lemma skipn_nth (i : nat) (l : list string) (d : string) :
  i < List.length l -> skipn i l = nth i l d :: skipn (S i) l.
Proof.
  revert l; induction i as [|i IH]; intros [|x l] H; simpl in H; try lia.
  - reflexivity.
  - change (skipn i l = nth i l d :: skipn (S i) l). apply IH. lia.
Qed.

Lemma loop_perform (n i : nat) (argv : list string) (w : world) :
  List.length argv - i <= n ->
  parse_startup_line_from E n i (List.length argv) argv w
  = perform_all E (map classify (skipn i argv)) w.
Proof.
  revert i w; induction n as [|n IH]; intros i w Hn.
  - rewrite skipn_all2 by lia. reflexivity.
  - cbn [parse_startup_line_from].
    destruct (i <? List.length argv)%nat eqn:Hi.
    + apply Nat.ltb_lt in Hi.
      rewrite (skipn_nth i argv EmptyString Hi). cbn [map perform_all].
      unfold bind. rewrite body_perform.
      destruct (perform E (classify (nth i argv EmptyString)) w) as [[u|c|] w'];
        try reflexivity.
      apply IH. lia.
    + apply Nat.ltb_ge in Hi. rewrite skipn_all2 by lia. reflexivity.
Qed.

Lemma parse_perform (prog : string) (args : list string) (w : world) :
  parse_startup_line E (S (List.length args)) (prog :: args) w
  = (perform_all E (map classify args) ;; ret SUCCESS) w.
Proof.
  unfold parse_startup_line, bind.
  change (S (List.length args)) with (List.length (prog :: args)).
  rewrite loop_perform by lia. reflexivity.
Qed.

Lemma parse_tokens (argv : list string) (w : world) :
  parse_startup_line E (List.length argv) argv w
  = (perform_all E (map classify (tl argv)) ;; ret SUCCESS) w.
Proof.
  destruct argv as [|prog args].
  - reflexivity.
  - apply parse_perform.
Qed.

Lemma perform_all_app (a b : list ArgAction) (w : world) :
  perform_all E (a ++ b) w = (perform_all E a ;; perform_all E b) w.
Proof.
  revert w; induction a as [|x a IH]; intros w; cbn [app perform_all].
  - reflexivity.
  - unfold bind.
    destruct (perform E x w) as [[u|c|] w']; try reflexivity.
    rewrite IH. reflexivity.
Qed.

Lemma nondash_not_quit (t : string) :
  starts_with_dash t = false -> is_quit t = false.
Proof.
  intros Hd. destruct (is_quit t) eqn:Hq; [|reflexivity].
  apply quit_starts_with_dash in Hq. congruence.
Qed.

Lemma classify_not_quit (t : string) :
  is_quit t = false ->
  classify t = if starts_with_dash t then Unrecognized t else ParamFile t.
Proof.
  unfold is_quit, classify. intros H. apply orb_false_iff in H as [-> ->].
  reflexivity.
Qed.

Lemma classify_quit (t : string) :
  is_quit t = true -> classify t = if is_help t then Help else Version.
Proof.
  unfold is_quit, classify. destruct (is_help t); [reflexivity|].
  cbn [orb]. now intros ->.
Qed.

Lemma perform_not_quit (t : string) (w : world) :
  is_quit t = false -> exists w', perform E (classify t) w = (Returned tt, w').
Proof.
  intros H. rewrite (classify_not_quit t H).
  destruct (starts_with_dash t); cbn [perform]; [eauto|].
  destruct (loads E t); eauto.
Qed.

Lemma perform_all_not_quit (args : list string) (w : world) :
  forallb (fun t => negb (is_quit t)) args = true ->
  exists w', perform_all E (map classify args) w = (Returned tt, w').
Proof.
  revert w; induction args as [|t args IH]; intros w H; cbn [map perform_all].
  - eexists; reflexivity.
  - cbn [forallb] in H. apply andb_true_iff in H as [Ht Hr].
    apply negb_true_iff in Ht.
    destruct (perform_not_quit t w Ht) as [w' Hw'].
    unfold bind. rewrite Hw'. apply IH, Hr.
Qed.

Lemma first_quit_split (args : list string) :
  existsb is_quit args = true ->
  exists pre t post,
    args = pre ++ t :: post
    /\ forallb (fun a => negb (is_quit a)) pre = true
    /\ is_quit t = true.
Proof.
  induction args as [|a args IH]; cbn [existsb]; [discriminate|].
  destruct (is_quit a) eqn:Ha.
  - intros _. exists [], a, args. auto.
  - cbn [orb]. intros H. destruct (IH H) as (pre & t & post & -> & Hp & Ht).
    exists (a :: pre), t, post. cbn [forallb app]. rewrite Ha, Hp. auto.
Qed.

Lemma last_loaded_from (paths : list string) (acc : option string) :
  fold_left (fun a p => if loads E p then Some p else a) paths acc
  = match last_loaded E paths with
    | Some q => Some q
    | None => acc
    end.
Proof.
  unfold last_loaded. revert acc.
  induction paths as [|p paths IH]; intros acc; cbn [fold_left].
  - reflexivity.
  - rewrite (IH (if loads E p then Some p else acc)).
    rewrite (IH (if loads E p then Some p else None)).
    destruct (fold_left _ paths None); [reflexivity|].
    destruct (loads E p); reflexivity.
Qed.

Lemma last_loaded_cons (p : string) (paths : list string) :
  last_loaded E (p :: paths)
  = match last_loaded E paths with
    | Some q => Some q
    | None => if loads E p then Some p else None
    end.
Proof.
  unfold last_loaded at 1. cbn [fold_left]. apply last_loaded_from.
Qed.

Lemma perform_all_paths (paths : list string) (w : world) :
  forallb (fun p => negb (starts_with_dash p)) paths = true ->
  perform_all E (map classify paths) w
  = (Returned tt,
     mkWorld (calls w ++ flat_map (load_calls E) paths)
             (fst (file_state_after E w paths))
             (snd (file_state_after E w paths))).
Proof.
  revert w; induction paths as [|p paths IH]; intros w H.
  - cbn. rewrite app_nil_r. now destruct w.
  - cbn [forallb] in H. apply andb_true_iff in H as [Hp Hr].
    apply negb_true_iff in Hp.
    cbn [map perform_all flat_map]. unfold bind.
    rewrite (classify_not_quit p (nondash_not_quit p Hp)), Hp.
    cbn [perform]. unfold file_state_after. rewrite last_loaded_cons.
    destruct (loads E p) eqn:Hl; rewrite (IH _ Hr); unfold file_state_after;
      destruct (last_loaded E paths); cbn [fst snd]; f_equal; f_equal;
      unfold logs; same_world.
Qed.

Lemma perform_calls (a : ArgAction) (w : world) :
  exists es,
    calls (snd (perform E a w)) = calls w ++ es
    /\ forallb parser_call es = true.
Proof.
  destruct a as [| |path|path]; cbn [perform].
  - eexists. split; [reflexivity|reflexivity].
  - eexists. split; [reflexivity|reflexivity].
  - exists (load_calls E path). split.
    + destruct (loads E path); reflexivity.
    + unfold load_calls.
      destruct (phoebe_open_parameter_file_status E path); reflexivity.
  - exists []. split; [cbn; now rewrite app_nil_r|reflexivity].
Qed.

Lemma perform_outcome (a : ArgAction) (w : world) :
  fst (perform E a w) = Returned tt
  \/ fst (perform E a w) = Exited EXIT_SUCCESS.
Proof.
  destruct a as [| |path|path]; cbn [perform]; auto.
  destruct (loads E path); auto.
Qed.

Lemma perform_all_calls (actions : list ArgAction) (w : world) :
  exists es,
    calls (snd (perform_all E actions w)) = calls w ++ es
    /\ forallb parser_call es = true.
Proof.
  revert w; induction actions as [|a actions IH]; intros w.
  - exists []. split; [cbn; now rewrite app_nil_r|reflexivity].
  - cbn [perform_all]. unfold bind.
    destruct (perform_calls a w) as (es & Hes & Hp).
    destruct (perform E a w) as [[u|c|] w'] eqn:Ha; cbn [snd] in Hes |- *;
      try (exists es; split; assumption).
    destruct (IH w') as (es' & Hes' & Hp').
    exists (es ++ es'). split.
    + rewrite Hes', Hes. now rewrite app_assoc.
    + rewrite forallb_app, Hp, Hp'. reflexivity.
Qed.

Lemma perform_all_outcome (actions : list ArgAction) (w : world) :
  fst (perform_all E actions w) = Returned tt
  \/ fst (perform_all E actions w) = Exited EXIT_SUCCESS.
Proof.
  revert w; induction actions as [|a actions IH]; intros w.
  - left; reflexivity.
  - cbn [perform_all]. unfold bind.
    destruct (perform_outcome a w) as [H|H];
      destruct (perform E a w) as [[u|c|] w']; cbn [fst] in H |- *;
      try discriminate; auto.
Qed.

End ParserFacts.

(* ================================================================== *)
(** ** Claims about the command-line parser *)

Section ParserClaims.

Variable E : Env.

(** C2.  For every argument vector, [parse_startup_line] does what
    interpreting, in input order, the classification of each token after the
    program name does: [Help] for [-h], [-?], [--help]; [Version] for [-v],
    [--version]; [Unrecognized] (nothing is done) for any other token that
    starts with a dash; [ParamFile] for every remaining token. *)
Theorem parse_startup_line_classifies (argv : list string) (w : world) :
  parse_startup_line E (List.length argv) argv w
  = (perform_all E (map classify (tl argv)) ;; ret SUCCESS) w.
Proof. apply parse_tokens. Qed.

(** C3.  When the arguments contain a help or version token, the run splits
    at the first such token [t]: the arguments before it are processed in
    order exactly as they are on their own, then the usage text (for a help
    token) or the version text (for a version token) goes to standard output,
    and the process ends with the success status; what follows [t] plays no
    part. *)
Theorem help_or_version_ends_the_run
    (prog : string) (args : list string) (w : world) :
  existsb is_quit args = true ->
  exists pre t post w1,
    args = pre ++ t :: post
    /\ forallb (fun a => negb (is_quit a)) pre = true
    /\ is_quit t = true
    /\ parse_startup_line E (S (List.length pre)) (prog :: pre) w
       = (Returned SUCCESS, w1)
    /\ parse_startup_line E (S (List.length args)) (prog :: args) w
       = (Exited EXIT_SUCCESS,
          mkWorld (calls w1
                   ++ (if is_help t then usage_text E else version_text E)
                   ++ [EvPhoebeQuit])
                  (PHOEBE_FILEFLAG w1) (PHOEBE_FILENAME w1)).
Proof.
  intros H.
  destruct (first_quit_split args H) as (pre & t & post & -> & Hpre & Ht).
  destruct (perform_all_not_quit E pre w Hpre) as [w1 Hw1].
  exists pre, t, post, w1. repeat split; auto.
  - rewrite parse_perform. unfold bind. now rewrite Hw1.
  - rewrite parse_perform, map_app. unfold bind.
    rewrite perform_all_app. unfold bind. rewrite Hw1.
    cbn [map perform_all]. unfold bind.
    rewrite (classify_quit t Ht).
    destruct (is_help t); reflexivity.
Qed.

(** C4.  For arguments that are all parameter-file paths the parser
    returns; every path gives rise to its load calls, in order; a path that
    loads leaves the file flag set and the file name equal to that path,
    right after the two refresh calls; so the final file state is that of the
    last path that loaded.  In particular, when ["badpath.phoebe"] fails to
    load and ["model.phoebe"] loads, the run over these two ends with
    the flag set, the name ["model.phoebe"] and one diagnostic, emitted for
    the first. *)
Theorem parameter_files_last_load_wins
    (prog : string) (paths : list string) (w : world) :
  forallb (fun p => negb (starts_with_dash p)) paths = true ->
  let r := parse_startup_line E (S (List.length paths)) (prog :: paths) w in
  fst r = Returned SUCCESS
  /\ calls (snd r) = calls w ++ flat_map (load_calls E) paths
  /\ (PHOEBE_FILEFLAG (snd r), PHOEBE_FILENAME (snd r))
     = match last_loaded E paths with
       | Some p => (true, Some p)
       | None => (PHOEBE_FILEFLAG w, PHOEBE_FILENAME w)
       end
  /\ (forall pre p post,
        paths = pre ++ p :: post ->
        phoebe_open_parameter_file_status E p = SUCCESS ->
        exists w0,
          parse_startup_line E (S (List.length pre)) (prog :: pre) w
          = (Returned SUCCESS, w0)
          /\ parse_startup_line E (S (List.length (pre ++ [p])))
               (prog :: pre ++ [p]) w
             = (Returned SUCCESS,
                mkWorld (calls w0 ++ [EvOpenParameterFile p;
                                      EvReinitTreeviews;
                                      EvSetValuesToWidgets])
                        true (Some p)))
  /\ (phoebe_open_parameter_file_status E "badpath.phoebe" <> SUCCESS ->
      phoebe_open_parameter_file_status E "model.phoebe" = SUCCESS ->
      parse_startup_line E 3 [prog; "badpath.phoebe"; "model.phoebe"]%string w
      = (Returned SUCCESS,
         mkWorld (calls w
                  ++ [EvOpenParameterFile "badpath.phoebe"%string;
                      EvGuiOutput
                        (phoebe_error E
                           (phoebe_open_parameter_file_status E
                              "badpath.phoebe"));
                      EvOpenParameterFile "model.phoebe";
                      EvReinitTreeviews;
                      EvSetValuesToWidgets])
                 true (Some "model.phoebe"))).
Proof.
  intros H r. subst r.
  rewrite parse_perform. unfold bind at 1 2 3 4.
  rewrite (perform_all_paths E paths w H).
  cbn [fst snd calls PHOEBE_FILEFLAG PHOEBE_FILENAME].
  split; [reflexivity|]. split; [reflexivity|].
  split; [unfold file_state_after; now destruct (last_loaded E paths)|].
  split.
  - intros pre p post -> Hp.
    rewrite forallb_app in H. apply andb_true_iff in H as [Hpre Hrest].
    cbn [forallb] in Hrest. apply andb_true_iff in Hrest as [Hnd _].
    apply negb_true_iff in Hnd.
    eexists. split.
    + rewrite parse_perform. unfold bind.
      rewrite (perform_all_paths E pre w Hpre). reflexivity.
    + rewrite parse_perform, map_app. unfold bind.
      rewrite perform_all_app. unfold bind.
      rewrite (perform_all_paths E pre w Hpre).
      cbn [map perform_all]. unfold bind.
      rewrite (classify_not_quit p (nondash_not_quit p Hnd)), Hnd.
      cbn [perform]. unfold loads, load_calls. rewrite Hp.
      reflexivity.
  - intros Hbad Hmodel.
    change 3 with (S (List.length ["badpath.phoebe"; "model.phoebe"]%string)).
    rewrite parse_perform. unfold bind.
    rewrite perform_all_paths by reflexivity.
    unfold file_state_after, last_loaded, loads. cbn [fold_left flat_map].
    unfold load_calls. rewrite Hmodel.
    apply status_eqb_neq in Hbad as Hbad'. 
    destruct (phoebe_open_parameter_file_status E "badpath.phoebe");
      try congruence; reflexivity.
Qed.

(** C5.  When the parser reaches a parameter-file path whose load fails,
    the error text of the status is sent to the message output, the file flag
    and the file name stay as they were, and the parser goes on with the
    remaining arguments. *)
Theorem failed_load_is_reported_and_skipped
    (prog : string) (pre : list string) (p : string) (rest : list string)
    (w w1 : world) :
  parse_startup_line E (S (List.length pre)) (prog :: pre) w
  = (Returned SUCCESS, w1) ->
  starts_with_dash p = false ->
  phoebe_open_parameter_file_status E p <> SUCCESS ->
  exists w2,
    parse_startup_line E (S (List.length (pre ++ [p]))) (prog :: pre ++ [p]) w
    = (Returned SUCCESS, w2)
    /\ calls w2
       = calls w1
         ++ [EvOpenParameterFile p;
             EvGuiOutput
               (phoebe_error E (phoebe_open_parameter_file_status E p))]
    /\ PHOEBE_FILEFLAG w2 = PHOEBE_FILEFLAG w1
    /\ PHOEBE_FILENAME w2 = PHOEBE_FILENAME w1
    /\ parse_startup_line E (S (List.length (pre ++ p :: rest)))
         (prog :: pre ++ p :: rest) w
       = parse_startup_line E (S (List.length rest)) (prog :: rest) w2.
Proof.
  intros Hpre Hd Hfail.
  rewrite parse_perform in Hpre. unfold bind in Hpre.
  destruct (perform_all E (map classify pre) w) as [[u|c|] w1'] eqn:Hrun;
    try discriminate.
  injection Hpre as <-.
  assert (Hp : perform E (classify p) w1'
               = (Returned tt,
                  logs [EvOpenParameterFile p;
                        EvGuiOutput
                          (phoebe_error E
                             (phoebe_open_parameter_file_status E p))] w1')).
  { rewrite (classify_not_quit p (nondash_not_quit p Hd)), Hd.
    cbn [perform]. unfold loads, load_calls.
    apply status_eqb_neq in Hfail as Hf. rewrite Hf.
    destruct (phoebe_open_parameter_file_status E p);
      try congruence; reflexivity. }
  eexists. split; [|split; [|split; [|split]]].
  - rewrite parse_perform, map_app. unfold bind.
    rewrite perform_all_app. unfold bind. rewrite Hrun.
    cbn [map perform_all]. unfold bind. rewrite Hp. reflexivity.
  - reflexivity.
  - reflexivity.
  - reflexivity.
  - rewrite !parse_perform, map_app. unfold bind.
    rewrite perform_all_app. unfold bind. rewrite Hrun.
    cbn [map perform_all]. unfold bind. rewrite Hp. reflexivity.
Qed.

End ParserClaims.

(* ================================================================== *)
(** ** The bootstrap sequence as a whole *)

Section MainFacts.

Variable E : Env.

(** [main], call by call. *)
Lemma main_run (argv : list string) (w : world) :
  main E argv w
  = if status_eqb (phoebe_init_status E) SUCCESS
    then
      match perform_all E (map classify (tl (gtk_init_argv E argv)))
              (logs (boot_calls
                     ++ [confirm_on_overwrite_option;
                         beep_after_plot_and_fit_option;
                         EvPhoebeConfigure; EvPhoebeGuiInit]) w) with
      | (Returned _, w2) =>
          if gtk_main_returns E
          then (Exited EXIT_SUCCESS,
                logs (review_calls (phoebe_configure_status E)
                      ++ [EvGtkMain; EvPhoebeGuiQuit; EvPhoebeQuit]) w2)
          else (Hung,
                logs (review_calls (phoebe_configure_status E)
                      ++ [EvGtkMain]) w2)
      | (Exited c, w2) => (Exited c, w2)
      | (Hung, w2) => (Hung, w2)
      end
    else
      (Exited 0%Z,
       logs (boot_calls
             ++ [EvPrintf (phoebe_gui_error E (phoebe_init_status E))]) w).
Proof.
  unfold main. run_monad.
  destruct (status_eqb (phoebe_init_status E) SUCCESS) eqn:Hi; cbn [negb].
  - rewrite parse_tokens. unfold bind, ret.
    match goal with
    | |- context [perform_all E ?a ?w1] =>
        match goal with
        | |- _ = match perform_all E a ?w2 with _ => _ end =>
            replace w2 with w1 by (unfold boot_calls; f_equal; same_world)
        end;
        destruct (perform_all E a w1) as [[u|c|] w2]
    end; try reflexivity.
    unfold review_calls, gtk_main, log.
    destruct (phoebe_configure_status E); cbn [status_eqb orb];
      destruct (gtk_main_returns E);
      cbn [calls PHOEBE_FILEFLAG PHOEBE_FILENAME];
      f_equal; f_equal; same_world.
  - unfold boot_calls. f_equal. f_equal. same_world.
Qed.

Lemma review_calls_of (c : ConfigStatus) :
  review_calls (code_of c) = notice_of c ++ dialog_of c.
Proof. destruct c; reflexivity. Qed.

Lemma review_calls_unclassified (st : status) :
  st <> ERROR_PHOEBE_CONFIG_SUPPORTED_FILE ->
  st <> ERROR_PHOEBE_CONFIG_LEGACY_FILE ->
  st <> ERROR_PHOEBE_CONFIG_NOT_FOUND ->
  review_calls st = [].
Proof. destruct st; intros; try congruence; reflexivity. Qed.

Lemma review_calls_clean (st : status) :
  forallb (fun e => negb (parser_call e)) (review_calls st) = true
  /\ ~ In EvGtkMain (review_calls st)
  /\ ~ In EvPhoebeConfigure (review_calls st).
Proof.
  destruct st; cbn; repeat split; try reflexivity;
    intros H; repeat (destruct H as [H|H]; try discriminate); auto.
Qed.

(** The three ways a run of [main] can go. *)
Lemma main_cases (argv : list string) (w : world) :
  exists pes,
    forallb parser_call pes = true
    /\ ((phoebe_init_status E <> SUCCESS
         /\ main E argv w
            = (Exited 0%Z,
               logs (boot_calls
                     ++ [EvPrintf (phoebe_gui_error E (phoebe_init_status E))])
                    w))
        \/ (phoebe_init_status E = SUCCESS
            /\ forallb (fun t => negb (is_quit t)) (tl (gtk_init_argv E argv))
               = false
            /\ fst (main E argv w) = Exited EXIT_SUCCESS
            /\ emitted_by E argv w (setup_calls ++ pes))
        \/ (phoebe_init_status E = SUCCESS
            /\ fst (main E argv w)
               = (if gtk_main_returns E then Exited EXIT_SUCCESS else Hung)
            /\ emitted_by E argv w
                 (setup_calls ++ pes
                  ++ review_calls (phoebe_configure_status E)
                  ++ event_loop_calls E))).
Proof.
  unfold emitted_by. rewrite main_run.
  destruct (status_eqb (phoebe_init_status E) SUCCESS) eqn:Hi.
  - apply status_eqb_eq in Hi.
    set (args := tl (gtk_init_argv E argv)).
    fold setup_calls.
    destruct (perform_all_calls E (map classify args) (logs setup_calls w))
      as (pes & Hc & Hp).
    destruct (perform_all_outcome E (map classify args) (logs setup_calls w))
      as [Ho|Ho].
    + destruct (perform_all E (map classify args) (logs setup_calls w))
        as [[u|c|] w2]; cbn [fst snd] in Ho, Hc; try discriminate.
      exists pes. split; [exact Hp|]. right; right.
      split; [exact Hi|]. unfold event_loop_calls.
      destruct (gtk_main_returns E); (split; [reflexivity|]);
        cbn [snd logs calls]; rewrite Hc; cbn [logs calls];
        now rewrite <- !app_assoc.
    + destruct (perform_all E (map classify args) (logs setup_calls w))
        as [[u|c|] w2] eqn:Hrun; cbn [fst snd] in Ho, Hc; try discriminate.
      exists pes. split; [exact Hp|]. right; left.
      split; [exact Hi|]. split; [|split].
      * destruct (forallb (fun t => negb (is_quit t)) args) eqn:Hq;
          [|reflexivity].
        destruct (perform_all_not_quit E args (logs setup_calls w) Hq)
          as [w' Hw']. congruence.
      * cbn [fst]. now injection Ho as ->.
      * cbn [snd]. rewrite Hc. cbn [logs calls]. now rewrite <- app_assoc.
  - apply status_eqb_neq in Hi. exists []. split; [reflexivity|].
    left. split; [exact Hi|reflexivity].
Qed.

End MainFacts.

(* ================================================================== *)
(** ** Claims about the bootstrap sequence *)

Section MainClaims.

Variable E : Env.

(** C1.  On a run that gets past engine initialisation and whose arguments
    hold no help or version token, for each of the four configuration
    statuses: the calls of the run are some calls that are neither a notice
    nor the settings dialog, then the notice mapped to the status (welcome
    for [NotFound], legacy import for [ImportedLegacy], recent import for
    [ImportedSupported], none for [Current]), then the settings dialog unless
    the status is [Current], then again calls that are neither.  So the
    dialog is opened exactly when the status is not [Current], and the notice
    comes before it. *)
Theorem notice_and_dialog_follow_status
    (argv : list string) (w : world) (cs : ConfigStatus) :
  phoebe_init_status E = SUCCESS ->
  phoebe_configure_status E = code_of cs ->
  forallb (fun t => negb (is_quit t)) (tl (gtk_init_argv E argv)) = true ->
  exists before after,
    emitted_by E argv w (before ++ notice_of cs ++ dialog_of cs ++ after)
    /\ forallb (fun e => negb (is_notice_or_dialog e)) before = true
    /\ forallb (fun e => negb (is_notice_or_dialog e)) after = true
    /\ (In EvShowConfigurationDialog
          (before ++ notice_of cs ++ dialog_of cs ++ after)
        <-> cs <> Current).
Proof.
  intros Hinit Hcfg Hargs.
  destruct (main_cases E argv w)
    as (pes & Hp & [[Hf _] | [(_ & Hq & _) | (_ & _ & Hem)]]);
    try congruence.
  rewrite Hcfg, review_calls_of in Hem.
  assert (Hb : forallb (fun e => negb (is_notice_or_dialog e))
                 (setup_calls ++ pes) = true).
  { rewrite forallb_app. apply andb_true_iff. split; [reflexivity|].
    revert Hp. apply forallb_weaken, parser_call_not_review. }
  assert (Ha : forallb (fun e => negb (is_notice_or_dialog e))
                 (event_loop_calls E) = true).
  { unfold event_loop_calls. destruct (gtk_main_returns E); reflexivity. }
  exists (setup_calls ++ pes), (event_loop_calls E).
  split; [|split; [exact Hb|split; [exact Ha|]]].
  - rewrite <- !app_assoc in Hem |- *. exact Hem.
  - split.
    + intros Hin ->. cbn [notice_of dialog_of app] in Hin.
      revert Hin. apply (forallb_excludes
                           (fun e => negb (is_notice_or_dialog e))).
      * rewrite forallb_app, Hb, Ha. reflexivity.
      * reflexivity.
    + intros Hcs. apply in_or_app. right. apply in_or_app. right.
      apply in_or_app. left. destruct cs; try congruence; now left.
Qed.

(** C6.  On every run, whatever the configuration status turns out to be:
    either engine initialisation fails and configuration is never resolved,
    or the two GUI options, [GUI_CONFIRM_ON_OVERWRITE] with default true and
    [GUI_BEEP_AFTER_PLOT_AND_FIT] with default false, are registered right
    before the one call that resolves the configuration. *)
Theorem options_registered_before_configure
    (argv : list string) (w : world) :
  exists es,
    emitted_by E argv w es
    /\ ((phoebe_init_status E <> SUCCESS /\ ~ In EvPhoebeConfigure es)
        \/ (phoebe_init_status E = SUCCESS
            /\ exists after,
                 es = boot_calls
                      ++ [EvConfigEntryAdd TYPE_BOOL
                            "GUI_CONFIRM_ON_OVERWRITE" true;
                          EvConfigEntryAdd TYPE_BOOL
                            "GUI_BEEP_AFTER_PLOT_AND_FIT" false;
                          EvPhoebeConfigure]
                      ++ after
                 /\ ~ In EvPhoebeConfigure after)).
Proof.
  destruct (main_cases E argv w)
    as (pes & Hp & [[Hf Hm] | [(Hs & _ & _ & Hem) | (Hs & _ & Hem)]]).
  - eexists. split.
    + unfold emitted_by. rewrite Hm. reflexivity.
    + left. split; [exact Hf|]. cbn.
      intros H; repeat (destruct H as [H|H]; try discriminate); auto.
  - exists (setup_calls ++ pes). split; [exact Hem|].
    right. split; [exact Hs|]. exists (EvPhoebeGuiInit :: pes).
    split; [reflexivity|].
    intros [H|H]; [discriminate|].
    revert H. now apply (forallb_excludes parser_call).
  - eexists. split; [exact Hem|].
    right. split; [exact Hs|].
    exists (EvPhoebeGuiInit :: pes
            ++ review_calls (phoebe_configure_status E)
            ++ event_loop_calls E).
    split; [reflexivity|].
    intros [H|H]; [discriminate|].
    apply in_app_or in H as [H|H].
    + revert H. now apply (forallb_excludes parser_call).
    + apply in_app_or in H as [H|H].
      * now apply (review_calls_clean (phoebe_configure_status E)) in H.
      * unfold event_loop_calls in H. destruct (gtk_main_returns E);
          repeat (destruct H as [H|H]; try discriminate); auto.
Qed.

(** C7, as the code has it.  When the host event loop returns, the teardown
    of the GUI subsystem is run first and the teardown of the engine second,
    and nothing else is called; and a run that gets past engine
    initialisation and meets no help or version token does reach the event
    loop. *)
Theorem gui_teardown_then_engine_teardown
    (argv : list string) (w : world) :
  gtk_main_returns E = true ->
  teardown_after_event_loop [EvPhoebeGuiQuit; EvPhoebeQuit] E argv w
  /\ (phoebe_init_status E = SUCCESS ->
      forallb (fun t => negb (is_quit t)) (tl (gtk_init_argv E argv)) = true ->
      exists before,
        emitted_by E argv w
          (before ++ [EvGtkMain; EvPhoebeGuiQuit; EvPhoebeQuit])).
Proof.
  intros Hret.
  destruct (main_cases E argv w)
    as (pes & Hp & [[Hf Hm] | [(Hs & Hq & _ & Hem) | (Hs & _ & Hem)]]).
  - split; [|congruence].
    intros before after Hsplit. exfalso.
    unfold emitted_by in Hsplit. rewrite Hm in Hsplit. cbn [snd logs calls] in Hsplit.
    apply app_inv_head in Hsplit.
    assert (Hin : In EvGtkMain (before ++ EvGtkMain :: after))
      by apply in_elt.
    rewrite <- Hsplit in Hin. cbn in Hin.
    repeat (destruct Hin as [Hin|Hin]; try discriminate); auto.
  - split; [|congruence].
    intros before after Hsplit. exfalso.
    unfold emitted_by in Hsplit, Hem. rewrite Hem in Hsplit.
    apply app_inv_head in Hsplit.
    assert (Hin : In EvGtkMain (before ++ EvGtkMain :: after))
      by apply in_elt.
    rewrite <- Hsplit in Hin. apply in_app_or in Hin as [Hin|Hin].
    + cbn in Hin.
      repeat (destruct Hin as [Hin|Hin]; try discriminate); auto.
    + revert Hin. now apply (forallb_excludes parser_call).
  - unfold event_loop_calls in Hem. rewrite Hret in Hem.
    split.
    + intros before after Hsplit.
      unfold emitted_by in Hsplit, Hem. rewrite Hem in Hsplit.
      apply app_inv_head in Hsplit.
      rewrite !app_assoc in Hsplit.
      change ([EvGtkMain; EvPhoebeGuiQuit; EvPhoebeQuit])
        with (EvGtkMain :: [EvPhoebeGuiQuit; EvPhoebeQuit]) in Hsplit.
      symmetry in Hsplit. apply split_once in Hsplit.
      * now destruct Hsplit.
      * intros Hin. apply in_app_or in Hin as [Hin|Hin].
        -- apply in_app_or in Hin as [Hin|Hin].
           ++ cbn in Hin.
              repeat (destruct Hin as [Hin|Hin]; try discriminate); auto.
           ++ revert Hin. now apply (forallb_excludes parser_call).
        -- now apply (review_calls_clean (phoebe_configure_status E)) in Hin.
      * cbn. intros Hin.
        repeat (destruct Hin as [Hin|Hin]; try discriminate); auto.
    + intros _ _.
      exists (setup_calls ++ pes ++ review_calls (phoebe_configure_status E)).
      rewrite <- !app_assoc. exact Hem.
Qed.

(** C8.  When engine initialisation does not report success, the run
    consists of the three toolkit start-up calls, the engine initialisation
    call and the printing of the diagnostic; then the process is terminated.
    Nothing is registered, resolved, parsed, shown, entered or torn down, and
    the file state is untouched. *)
Theorem engine_init_failure_is_fatal (argv : list string) (w : world) :
  phoebe_init_status E <> SUCCESS ->
  main E argv w
  = (Exited 0%Z,
     mkWorld (calls w
              ++ [EvGtkSetLocale; EvGtkInit; EvGladeInit; EvPhoebeInit;
                  EvPrintf (phoebe_gui_error E (phoebe_init_status E))])
             (PHOEBE_FILEFLAG w) (PHOEBE_FILENAME w)).
Proof.
  intros Hf. rewrite main_run.
  apply status_eqb_neq in Hf. rewrite Hf. reflexivity.
Qed.

(** C9.  When configuration resolution answers a status that is neither
    success nor one of the three classified conditions, the run is the very
    run of the success case, call for call; no notice is emitted and the
    settings dialog is not opened. *)
Theorem unclassified_status_is_treated_as_current
    (argv : list string) (w : world) :
  phoebe_configure_status E <> SUCCESS ->
  phoebe_configure_status E <> ERROR_PHOEBE_CONFIG_SUPPORTED_FILE ->
  phoebe_configure_status E <> ERROR_PHOEBE_CONFIG_LEGACY_FILE ->
  phoebe_configure_status E <> ERROR_PHOEBE_CONFIG_NOT_FOUND ->
  main E argv w = main (with_configure_status E SUCCESS) argv w
  /\ exists es,
       emitted_by E argv w es
       /\ forallb (fun e => negb (is_notice_or_dialog e)) es = true.
Proof.
  intros _ Hs Hl Hn.
  pose proof (review_calls_unclassified _ Hs Hl Hn) as Hrev.
  split.
  - rewrite !main_run. cbn [with_configure_status phoebe_init_status
      gtk_init_argv gtk_main_returns phoebe_configure_status phoebe_gui_error].
    rewrite Hrev. reflexivity.
  - destruct (main_cases E argv w)
      as (pes & Hp & [[Hf Hm] | [(_ & _ & _ & Hem) | (_ & _ & Hem)]]).
    + eexists. split.
      * unfold emitted_by. rewrite Hm. reflexivity.
      * reflexivity.
    + eexists. split; [exact Hem|].
      rewrite forallb_app. apply andb_true_iff. split; [reflexivity|].
      revert Hp. apply forallb_weaken, parser_call_not_review.
    + eexists. split; [exact Hem|].
      rewrite Hrev. rewrite !forallb_app.
      repeat (apply andb_true_iff; split); try reflexivity.
      * revert Hp. apply forallb_weaken, parser_call_not_review.
      * unfold event_loop_calls. destruct (gtk_main_returns E); reflexivity.
Qed.

(** C10.  When engine initialisation fails the process ends with exit
    status 0, the success status; and 0 is the exit status of every run that
    ends, so the status does not tell this failure from a normal run. *)
Theorem engine_init_failure_exits_with_success
    (argv : list string) (w : world) :
  phoebe_init_status E <> SUCCESS ->
  fst (main E argv w) = Exited 0%Z
  /\ EXIT_SUCCESS = 0%Z
  /\ forall E' argv' w' c, fst (main E' argv' w') = Exited c -> c = 0%Z.
Proof.
  intros Hf. split; [|split; [reflexivity|]].
  - rewrite main_run. apply status_eqb_neq in Hf. now rewrite Hf.
  - intros E' argv' w' c H.
    destruct (main_cases E' argv' w')
      as (pes & Hp & [[_ Hm] | [(_ & _ & Ho & _) | (_ & Ho & _)]]).
    + rewrite Hm in H. cbn [fst] in H. congruence.
    + rewrite Ho in H. unfold EXIT_SUCCESS in H. congruence.
    + rewrite Ho in H. unfold EXIT_SUCCESS in H.
      destruct (gtk_main_returns E'); congruence.
Qed.

End MainClaims.

(* ================================================================== *)
(** ** The claims at concrete runs *)

(** Scenario A: no arguments, no configuration found. *)
Example first_start :
  main (with_configure_status sample_env ERROR_PHOEBE_CONFIG_NOT_FOUND)
       ["phoebe-gui"] empty_world
  = (Exited 0%Z,
     mkWorld (setup_calls
              ++ [welcome_notice; EvShowConfigurationDialog;
                  EvGtkMain; EvPhoebeGuiQuit; EvPhoebeQuit])
             false None).
Proof. reflexivity. Qed.

(** Scenario B: one parameter file that loads, configuration up to date. *)
Example start_with_model :
  main sample_env ["phoebe-gui"; "model.phoebe"] empty_world
  = (Exited 0%Z,
     mkWorld (setup_calls
              ++ [EvOpenParameterFile "model.phoebe";
                  EvReinitTreeviews; EvSetValuesToWidgets;
                  EvGtkMain; EvPhoebeGuiQuit; EvPhoebeQuit])
             true (Some "model.phoebe")).
Proof. reflexivity. Qed.

(** Scenario C: the version switch. *)
Example start_with_version :
  main sample_env ["phoebe-gui"; "--version"; "model.phoebe"] empty_world
  = (Exited 0%Z,
     mkWorld (setup_calls ++ version_text sample_env ++ [EvPhoebeQuit])
             false None).
Proof. reflexivity. Qed.

(** An option that is not known is passed over. *)
Example start_with_unknown_option :
  parse_startup_line sample_env 3 ["phoebe-gui"; "--verbose"; "-"] empty_world
  = (Returned SUCCESS, empty_world).
Proof. reflexivity. Qed.

Lemma notice_and_dialog_follow_status_witness :
  let E := with_configure_status sample_env ERROR_PHOEBE_CONFIG_NOT_FOUND in
  let argv := ["phoebe-gui"; "model.phoebe"] in
  phoebe_init_status E = SUCCESS
  /\ phoebe_configure_status E = code_of NotFound
  /\ exists before after,
       emitted_by E argv empty_world
         (before ++ notice_of NotFound ++ dialog_of NotFound ++ after)
       /\ forallb (fun e => negb (is_notice_or_dialog e)) before = true
       /\ forallb (fun e => negb (is_notice_or_dialog e)) after = true
       /\ (In EvShowConfigurationDialog
             (before ++ notice_of NotFound ++ dialog_of NotFound ++ after)
           <-> NotFound <> Current).
Proof.
  cbv zeta. split; [reflexivity|]. split; [reflexivity|].
  apply (notice_and_dialog_follow_status
           (with_configure_status sample_env ERROR_PHOEBE_CONFIG_NOT_FOUND)
           ["phoebe-gui"; "model.phoebe"] empty_world NotFound);
    reflexivity.
Defined.

Lemma help_or_version_ends_the_run_witness :
  let args := ["model.phoebe"; "-v"; "badpath.phoebe"; "-h"] in
  existsb is_quit args = true
  /\ exists pre t post w1,
       args = pre ++ t :: post
       /\ forallb (fun a => negb (is_quit a)) pre = true
       /\ is_quit t = true
       /\ parse_startup_line sample_env (S (List.length pre))
            ("phoebe-gui" :: pre) empty_world
          = (Returned SUCCESS, w1)
       /\ parse_startup_line sample_env (S (List.length args))
            ("phoebe-gui" :: args) empty_world
          = (Exited EXIT_SUCCESS,
             mkWorld (calls w1
                      ++ (if is_help t then usage_text sample_env
                          else version_text sample_env)
                      ++ [EvPhoebeQuit])
                     (PHOEBE_FILEFLAG w1) (PHOEBE_FILENAME w1)).
Proof.
  cbv zeta. split; [reflexivity|].
  apply (help_or_version_ends_the_run sample_env "phoebe-gui"
           ["model.phoebe"; "-v"; "badpath.phoebe"; "-h"] empty_world).
  reflexivity.
Defined.

Lemma parameter_files_last_load_wins_witness :
  let paths := ["badpath.phoebe"; "model.phoebe"] in
  forallb (fun p => negb (starts_with_dash p)) paths = true
  /\ phoebe_open_parameter_file_status sample_env "badpath.phoebe" <> SUCCESS
  /\ phoebe_open_parameter_file_status sample_env "model.phoebe" = SUCCESS
  /\ parse_startup_line sample_env 3 ("phoebe-gui" :: paths) empty_world
     = (Returned SUCCESS,
        mkWorld [EvOpenParameterFile "badpath.phoebe";
                 EvGuiOutput "file not found";
                 EvOpenParameterFile "model.phoebe";
                 EvReinitTreeviews;
                 EvSetValuesToWidgets]
                true (Some "model.phoebe")).
Proof.
  cbv zeta. split; [reflexivity|]. split; [discriminate|].
  split; [reflexivity|].
  apply (parameter_files_last_load_wins sample_env "phoebe-gui"
           ["badpath.phoebe"; "model.phoebe"] empty_world).
  - reflexivity.
  - discriminate.
  - reflexivity.
Defined.

Lemma failed_load_is_reported_and_skipped_witness :
  let w1 := mkWorld [EvOpenParameterFile "model.phoebe";
                     EvReinitTreeviews; EvSetValuesToWidgets]
                    true (Some "model.phoebe") in
  let pre := ["model.phoebe"] in
  let rest := ["-x"; "other.phoebe"] in
  parse_startup_line sample_env (S (List.length pre)) ("phoebe-gui" :: pre)
    empty_world
  = (Returned SUCCESS, w1)
  /\ starts_with_dash "badpath.phoebe" = false
  /\ phoebe_open_parameter_file_status sample_env "badpath.phoebe" <> SUCCESS
  /\ exists w2,
       parse_startup_line sample_env
         (S (List.length (pre ++ ["badpath.phoebe"])))
         ("phoebe-gui" :: pre ++ ["badpath.phoebe"]) empty_world
       = (Returned SUCCESS, w2)
       /\ calls w2
          = calls w1
            ++ [EvOpenParameterFile "badpath.phoebe";
                EvGuiOutput
                  (phoebe_error sample_env
                     (phoebe_open_parameter_file_status sample_env
                        "badpath.phoebe"))]
       /\ PHOEBE_FILEFLAG w2 = PHOEBE_FILEFLAG w1
       /\ PHOEBE_FILENAME w2 = PHOEBE_FILENAME w1
       /\ parse_startup_line sample_env
            (S (List.length (pre ++ "badpath.phoebe" :: rest)))
            ("phoebe-gui" :: pre ++ "badpath.phoebe" :: rest) empty_world
          = parse_startup_line sample_env (S (List.length rest))
              ("phoebe-gui" :: rest) w2.
Proof.
  cbv zeta. split; [reflexivity|]. split; [reflexivity|].
  split; [discriminate|].
  apply (failed_load_is_reported_and_skipped sample_env "phoebe-gui"
           ["model.phoebe"] "badpath.phoebe" ["-x"; "other.phoebe"]
           empty_world).
  - reflexivity.
  - reflexivity.
  - discriminate.
Defined.

(** C7, as the claim words it: engine teardown first, GUI teardown second.
    The run with no arguments tears the GUI down first. *)
Lemma engine_teardown_first_refuted :
  gtk_main_returns sample_env = true
  /\ emitted_by sample_env ["phoebe-gui"] empty_world
       (setup_calls ++ [EvGtkMain; EvPhoebeGuiQuit; EvPhoebeQuit])
  /\ ~ teardown_after_event_loop [EvPhoebeQuit; EvPhoebeGuiQuit]
         sample_env ["phoebe-gui"] empty_world.
Proof.
  split; [reflexivity|]. split; [reflexivity|].
  intros H.
  specialize (H setup_calls [EvPhoebeGuiQuit; EvPhoebeQuit]).
  discriminate H. reflexivity.
Qed.

Lemma gui_teardown_then_engine_teardown_witness :
  gtk_main_returns sample_env = true
  /\ teardown_after_event_loop [EvPhoebeGuiQuit; EvPhoebeQuit]
       sample_env ["phoebe-gui"; "model.phoebe"] empty_world
  /\ (phoebe_init_status sample_env = SUCCESS ->
      forallb (fun t => negb (is_quit t))
        (tl (gtk_init_argv sample_env ["phoebe-gui"; "model.phoebe"])) = true ->
      exists before,
        emitted_by sample_env ["phoebe-gui"; "model.phoebe"] empty_world
          (before ++ [EvGtkMain; EvPhoebeGuiQuit; EvPhoebeQuit])).
Proof.
  split; [reflexivity|].
  apply (gui_teardown_then_engine_teardown sample_env
           ["phoebe-gui"; "model.phoebe"] empty_world).
  reflexivity.
Defined.

Lemma engine_init_failure_is_fatal_witness :
  let E := with_init_status sample_env (OTHER_STATUS 7) in
  phoebe_init_status E <> SUCCESS
  /\ main E ["phoebe-gui"; "model.phoebe"] empty_world
     = (Exited 0%Z,
        mkWorld [EvGtkSetLocale; EvGtkInit; EvGladeInit; EvPhoebeInit;
                 EvPrintf "engine start-up failed"]
                false None).
Proof.
  cbv zeta. split; [discriminate|].
  apply (engine_init_failure_is_fatal
           (with_init_status sample_env (OTHER_STATUS 7))
           ["phoebe-gui"; "model.phoebe"] empty_world).
  discriminate.
Defined.

Lemma unclassified_status_is_treated_as_current_witness :
  let E := with_configure_status sample_env (OTHER_STATUS 3) in
  let argv := ["phoebe-gui"; "model.phoebe"] in
  phoebe_configure_status E = OTHER_STATUS 3
  /\ main E argv empty_world
     = main (with_configure_status E SUCCESS) argv empty_world
  /\ exists es,
       emitted_by E argv empty_world es
       /\ forallb (fun e => negb (is_notice_or_dialog e)) es = true.
Proof.
  cbv zeta. split; [reflexivity|].
  apply (unclassified_status_is_treated_as_current
           (with_configure_status sample_env (OTHER_STATUS 3))
           ["phoebe-gui"; "model.phoebe"] empty_world);
    discriminate.
Defined.

Lemma engine_init_failure_exits_with_success_witness :
  let E := with_init_status sample_env (OTHER_STATUS 7) in
  phoebe_init_status E <> SUCCESS
  /\ fst (main E ["phoebe-gui"] empty_world) = Exited 0%Z
  /\ EXIT_SUCCESS = 0%Z
  /\ forall E' argv' w' c, fst (main E' argv' w') = Exited c -> c = 0%Z.
Proof.
  cbv zeta. split; [discriminate|].
  apply (engine_init_failure_exits_with_success
           (with_init_status sample_env (OTHER_STATUS 7))
           ["phoebe-gui"] empty_world).
  discriminate.
Defined.

(* ================================================================== *)
(** ** Further properties of the parser *)

Section ParserRuns.

Variable E : Env.

Lemma perform_all_run (args : list string) (w : world) :
  perform_all E (map classify args) w
  = (if existsb is_quit args then Exited EXIT_SUCCESS else Returned tt,
     mkWorld (calls w ++ flat_map (load_calls E) (opened_paths args)
              ++ quit_calls E args)
             (fst (file_state_after E w (opened_paths args)))
             (snd (file_state_after E w (opened_paths args)))).
Proof.
  revert w; induction args as [|t args IH]; intros w.
  - cbn. rewrite app_nil_r. now destruct w.
  - cbn [map perform_all existsb reached]. unfold bind, quit_calls, opened_paths.
    cbn [find reached]. destruct (is_quit t) eqn:Hq.
    + rewrite (classify_quit t Hq). cbn [orb filter flat_map app].
      destruct (is_help t); reflexivity.
    + rewrite (classify_not_quit t Hq). cbn [orb filter].
      destruct (starts_with_dash t) eqn:Hd; cbn [negb perform].
      * apply IH.
      * fold (opened_paths args). unfold file_state_after.
        rewrite last_loaded_cons. cbn [flat_map].
        destruct (loads E t) eqn:Hl; rewrite IH; unfold file_state_after;
          destruct (last_loaded E (opened_paths args)); cbn [fst snd];
          f_equal; f_equal; unfold logs, quit_calls; same_world.
Qed.

Lemma filter_recognized_run (args : list string) :
  let kept := filter (fun t => negb (is_unrecognized t)) args in
  existsb is_quit kept = existsb is_quit args
  /\ opened_paths kept = opened_paths args
  /\ quit_calls E kept = quit_calls E args.
Proof.
  cbv zeta. unfold opened_paths, quit_calls, is_unrecognized.
  induction args as [|t args (IH1 & IH2 & IH3)]; [auto|].
  cbn [filter]. destruct (is_quit t) eqn:Hq.
  - rewrite andb_false_r. cbn [negb existsb reached find]. rewrite Hq.
    cbn. auto.
  - rewrite andb_true_r. destruct (starts_with_dash t) eqn:Hd; cbn [negb];
      cbn [existsb reached find]; rewrite ?Hq; cbn [orb filter];
      rewrite ?Hd; cbn [negb]; rewrite ?IH1, ?IH2; auto.
Qed.

Lemma loop_firstn (n i argc : nat) (argv : list string) (w : world) :
  parse_startup_line_from E n i argc argv w
  = parse_startup_line_from E n i argc (firstn argc argv) w.
Proof.
  revert i w; induction n as [|n IH]; intros i w; [reflexivity|].
  cbn [parse_startup_line_from].
  destruct (i <? argc)%nat eqn:Hi; [|reflexivity].
  unfold bind. rewrite nth_firstn, Hi.
  destruct (parse_startup_line_body E (nth i argv EmptyString) w)
    as [[u|c|] w']; try reflexivity.
  apply IH.
Qed.

Lemma loop_perform_within
    (n i argc : nat) (argv : list string) (w : world) :
  argc <= List.length argv ->
  argc - i <= n ->
  parse_startup_line_from E n i argc argv w
  = perform_all E (map classify (skipn i (firstn argc argv))) w.
Proof.
  intros Hlen Hn. rewrite loop_firstn.
  pose proof (loop_perform E n i (firstn argc argv) w) as H.
  rewrite firstn_length_le in H by exact Hlen.
  apply H. lia.
Qed.

(** An option that is not one of the five switches changes nothing: the run
    is the run without it. *)
Theorem unrecognized_options_are_ignored
    (prog : string) (args : list string) (w : world) :
  let kept := filter (fun t => negb (is_unrecognized t)) args in
  parse_startup_line E (S (List.length args)) (prog :: args) w
  = parse_startup_line E (S (List.length kept)) (prog :: kept) w.
Proof.
  cbv zeta. rewrite !parse_perform. unfold bind.
  rewrite !perform_all_run.
  destruct (filter_recognized_run args) as (-> & -> & ->). reflexivity.
Qed.

(** The parser comes back, with [SUCCESS], exactly when no argument is a
    help or version switch; with such a switch it ends the process with
    status 0.  It never does anything else. *)
Theorem parser_returns_unless_switch
    (prog : string) (args : list string) (w : world) :
  fst (parse_startup_line E (S (List.length args)) (prog :: args) w)
  = if existsb is_quit args then Exited 0%Z else Returned SUCCESS.
Proof.
  rewrite parse_perform. unfold bind. rewrite perform_all_run.
  destruct (existsb is_quit args); reflexivity.
Qed.

(** The calls of a run of the parser, for any arguments: the load calls of
    the arguments without a leading dash that come before the first help or
    version switch, in order, and then the text and the quit of that switch
    if there is one.  The file flag and name end as the last of these paths
    that loaded sets them, and are untouched if none did. *)
Theorem parser_run (prog : string) (args : list string) (w : world) :
  let w' := snd (parse_startup_line E (S (List.length args)) (prog :: args) w) in
  calls w' = calls w ++ flat_map (load_calls E) (opened_paths args)
             ++ quit_calls E args
  /\ (PHOEBE_FILEFLAG w', PHOEBE_FILENAME w')
     = match last_loaded E (opened_paths args) with
       | Some p => (true, Some p)
       | None => (PHOEBE_FILEFLAG w, PHOEBE_FILENAME w)
       end.
Proof.
  cbv zeta. rewrite parse_perform. unfold bind. rewrite perform_all_run.
  unfold file_state_after.
  destruct (existsb is_quit args); cbn [snd calls PHOEBE_FILEFLAG PHOEBE_FILENAME];
    (split; [reflexivity|]);
    destruct (last_loaded E (opened_paths args)); reflexivity.
Qed.

(** Only the arguments at indices 1 to [argc - 1] are looked at: the
    program name and whatever the vector holds from index [argc] on play no
    part. *)
Theorem parser_reads_within_argc
    (prog prog' : string) (args : list string) (n : nat) (w : world) :
  n <= List.length args ->
  parse_startup_line E (S n) (prog :: args) w
  = parse_startup_line E (S n) (prog' :: firstn n args) w.
Proof.
  intros Hn. unfold parse_startup_line, bind.
  rewrite !loop_perform_within;
    cbn [List.length firstn skipn]; rewrite ?firstn_length_le; try lia.
  now rewrite firstn_firstn, Nat.min_id.
Qed.

End ParserRuns.

(* ================================================================== *)
(** ** Further properties of the bootstrap sequence *)

Section MainRuns.

Variable E : Env.

Lemma load_calls_parser (paths : list string) :
  forallb parser_call (flat_map (load_calls E) paths) = true.
Proof.
  induction paths as [|p paths IH]; [reflexivity|].
  cbn [flat_map]. rewrite forallb_app, IH, andb_true_r.
  unfold load_calls.
  destruct (phoebe_open_parameter_file_status E p); reflexivity.
Qed.

Lemma quit_calls_parser (args : list string) :
  forallb parser_call (quit_calls E args) = true.
Proof.
  unfold quit_calls. destruct (find is_quit args) as [t|]; [|reflexivity].
  destruct (is_help t); reflexivity.
Qed.

Lemma reached_no_quit (args : list string) :
  existsb is_quit args = false -> reached args = args.
Proof.
  induction args as [|t args IH]; [reflexivity|].
  cbn [existsb reached]. destruct (is_quit t); [discriminate|].
  cbn [orb]. intros H. now rewrite IH.
Qed.

Lemma quit_calls_no_quit (args : list string) :
  existsb is_quit args = false -> quit_calls E args = [].
Proof.
  unfold quit_calls. induction args as [|t args IH]; [reflexivity|].
  cbn [existsb find]. destruct (is_quit t); [discriminate|].
  cbn [orb]. exact IH.
Qed.

Lemma quit_calls_end (args : list string) :
  existsb is_quit args = true ->
  exists text, quit_calls E args = text ++ [EvPhoebeQuit].
Proof.
  unfold quit_calls. induction args as [|t args IH]; [discriminate|].
  cbn [existsb find]. destruct (is_quit t); [eauto|].
  cbn [orb]. exact IH.
Qed.

(** [main] in closed form. *)
Lemma main_closed (argv : list string) (w : world) :
  let args := tl (gtk_init_argv E argv) in
  let paths := opened_paths args in
  main E argv w
  = if status_eqb (phoebe_init_status E) SUCCESS
    then
      if existsb is_quit args
      then (Exited 0%Z,
            mkWorld (calls w ++ setup_calls ++ flat_map (load_calls E) paths
                     ++ quit_calls E args)
                    (fst (file_state_after E w paths))
                    (snd (file_state_after E w paths)))
      else (if gtk_main_returns E then Exited 0%Z else Hung,
            mkWorld (calls w ++ setup_calls ++ flat_map (load_calls E) paths
                     ++ review_calls (phoebe_configure_status E)
                     ++ event_loop_calls E)
                    (fst (file_state_after E w paths))
                    (snd (file_state_after E w paths)))
    else
      (Exited 0%Z,
       logs (boot_calls
             ++ [EvPrintf (phoebe_gui_error E (phoebe_init_status E))]) w).
Proof.
  cbv zeta. rewrite main_run.
  destruct (status_eqb (phoebe_init_status E) SUCCESS); [|reflexivity].
  fold setup_calls. rewrite perform_all_run.
  destruct (existsb is_quit (tl (gtk_init_argv E argv))) eqn:Hq.
  - unfold file_state_after, logs; cbn [calls PHOEBE_FILEFLAG PHOEBE_FILENAME].
    f_equal. f_equal. now rewrite <- !app_assoc.
  - rewrite (quit_calls_no_quit _ Hq), app_nil_r. unfold event_loop_calls.
    destruct (gtk_main_returns E);
      unfold file_state_after, logs;
      cbn [calls PHOEBE_FILEFLAG PHOEBE_FILENAME];
      f_equal; f_equal; now rewrite <- !app_assoc.
Qed.

(** A help or version switch is acted on only after the options have been
    registered, the configuration resolved and the GUI initialised; the
    parameter files named before the switch are loaded; then the text is
    printed and the process ends with status 0.  The run holds no notice, no
    settings dialog, no event loop and no GUI teardown. *)
Theorem switch_exit_follows_gui_init (argv : list string) (w : world) :
  let args := tl (gtk_init_argv E argv) in
  phoebe_init_status E = SUCCESS ->
  existsb is_quit args = true ->
  exists text,
    quit_calls E args = text ++ [EvPhoebeQuit]
    /\ forallb (fun e => match e with EvPrintf _ => true | _ => false end) text
       = true
    /\ fst (main E argv w) = Exited 0%Z
    /\ emitted_by E argv w
         (boot_calls
          ++ [confirm_on_overwrite_option; beep_after_plot_and_fit_option;
              EvPhoebeConfigure; EvPhoebeGuiInit]
          ++ flat_map (load_calls E) (opened_paths args)
          ++ text ++ [EvPhoebeQuit]).
Proof.
  cbv zeta. intros Hi Hq. unfold emitted_by. rewrite main_closed.
  apply status_eqb_eq in Hi. rewrite Hi, Hq.
  unfold quit_calls. destruct (find is_quit (tl (gtk_init_argv E argv)))
    as [t|] eqn:Hf.
  - eexists. split; [reflexivity|]. split; [|split].
    + destruct (is_help t); reflexivity.
    + reflexivity.
    + cbn [snd calls]. unfold setup_calls. now rewrite <- !app_assoc.
  - exfalso. apply existsb_exists in Hq as (t & Hin & Ht).
    apply (find_none _ _ Hf) in Hin. congruence.
Qed.

(** A run with engine initialisation done and no help or version switch, call
    by call: the set-up calls, the load calls of every argument without a
    leading dash, the notice and the dialog the configuration status asks
    for, the event loop and, if it returns, the two teardowns.  [main] itself
    leaves the file flag and name as the parser set them. *)
Theorem complete_run (argv : list string) (w : world) :
  let args := tl (gtk_init_argv E argv) in
  let paths := filter (fun t => negb (starts_with_dash t)) args in
  phoebe_init_status E = SUCCESS ->
  existsb is_quit args = false ->
  main E argv w
  = (if gtk_main_returns E then Exited 0%Z else Hung,
     mkWorld (calls w ++ setup_calls ++ flat_map (load_calls E) paths
              ++ review_calls (phoebe_configure_status E)
              ++ event_loop_calls E)
             (fst (file_state_after E w paths))
             (snd (file_state_after E w paths))).
Proof.
  cbv zeta. intros Hi Hq. rewrite main_closed.
  apply status_eqb_eq in Hi. rewrite Hi, Hq.
  unfold opened_paths. now rewrite (reached_no_quit _ Hq).
Qed.

Lemma review_calls_kind (st : status) :
  forallb is_notice_or_dialog (review_calls st) = true.
Proof. destruct st; reflexivity. Qed.

Lemma in_switch_run (x : event) (args : list string) :
  parser_call x = false ->
  In x (setup_calls ++ flat_map (load_calls E) (opened_paths args)
        ++ quit_calls E args) ->
  In x setup_calls.
Proof.
  intros Hx Hin. apply in_app_or in Hin as [Hin|Hin]; [exact Hin|].
  exfalso. revert Hin. apply (forallb_excludes parser_call); [|exact Hx].
  now rewrite forallb_app, load_calls_parser, quit_calls_parser.
Qed.

Lemma in_complete_run (x : event) (args : list string) :
  parser_call x = false ->
  is_notice_or_dialog x = false ->
  In x (setup_calls ++ flat_map (load_calls E) (opened_paths args)
        ++ review_calls (phoebe_configure_status E) ++ event_loop_calls E) ->
  In x setup_calls \/ In x (event_loop_calls E).
Proof.
  intros Hx Hn Hin. apply in_app_or in Hin as [Hin|Hin]; [now left|].
  apply in_app_or in Hin as [Hin|Hin].
  - exfalso. revert Hin.
    apply (forallb_excludes parser_call); [apply load_calls_parser|exact Hx].
  - apply in_app_or in Hin as [Hin|Hin]; [|now right].
    exfalso. revert Hin.
    apply (forallb_excludes is_notice_or_dialog);
      [apply review_calls_kind|exact Hn].
Qed.

(** The event loop is entered exactly on the runs where engine
    initialisation succeeded and no argument is a help or version switch; the
    GUI teardown is called exactly on those of them where the loop returns. *)
Theorem event_loop_and_gui_teardown
    (argv : list string) (w : world) (es : list event) :
  emitted_by E argv w es ->
  (In EvGtkMain es
   <-> phoebe_init_status E = SUCCESS
       /\ existsb is_quit (tl (gtk_init_argv E argv)) = false)
  /\ (In EvPhoebeGuiQuit es
      <-> phoebe_init_status E = SUCCESS
          /\ existsb is_quit (tl (gtk_init_argv E argv)) = false
          /\ gtk_main_returns E = true).
Proof.
  unfold emitted_by. rewrite main_closed. cbv zeta.
  set (args := tl (gtk_init_argv E argv)).
  assert (Hsetup : forall x, In x setup_calls ->
                     x <> EvGtkMain /\ x <> EvPhoebeGuiQuit).
  { intros x Hin. cbn in Hin.
    repeat (destruct Hin as [<-|Hin]; [split; discriminate|]).
    destruct Hin. }
  destruct (status_eqb (phoebe_init_status E) SUCCESS) eqn:Hi.
  - apply status_eqb_eq in Hi.
    destruct (existsb is_quit args) eqn:Hq; cbn [snd calls]; intros Hes;
      apply app_inv_head in Hes; subst es.
    + split; split.
      * intros Hin. apply in_switch_run in Hin; [|reflexivity].
        now apply Hsetup in Hin.
      * intros (_ & H). discriminate.
      * intros Hin. apply in_switch_run in Hin; [|reflexivity].
        now apply Hsetup in Hin.
      * intros (_ & H & _). discriminate.
    + split; split.
      * auto.
      * intros _. apply in_or_app; right. apply in_or_app; right.
        apply in_or_app; right. unfold event_loop_calls.
        destruct (gtk_main_returns E); now left.
      * intros Hin. split; [exact Hi|]. split; [reflexivity|].
        apply in_complete_run in Hin as [Hin|Hin]; try reflexivity.
        -- now apply Hsetup in Hin.
        -- unfold event_loop_calls in Hin.
           destruct (gtk_main_returns E); [reflexivity|].
           destruct Hin as [Hin|[]]. discriminate.
      * intros (_ & _ & Hret).
        apply in_or_app; right. apply in_or_app; right.
        apply in_or_app; right. unfold event_loop_calls. rewrite Hret.
        right. now left.
  - apply status_eqb_neq in Hi. cbn [snd logs calls]. intros Hes.
    apply app_inv_head in Hes; subst es.
    split; split; try (intros (H & _); congruence);
      intros Hin; exfalso; cbn in Hin;
      repeat (destruct Hin as [Hin|Hin]; try discriminate); auto.
Qed.

End MainRuns.

(* ================================================================== *)
(** ** The program name of the MinGW build *)

Lemma prefix_split (n h : string) :
  String.prefix n h = true -> exists b, h = n +++ b.
Proof.
  revert h; induction n as [|c n IH]; intros h H.
  - exists h. reflexivity.
  - destruct h as [|d h]; cbn [String.prefix] in H; [discriminate|].
    destruct (ascii_dec c d) as [->|]; [|discriminate].
    destruct (IH h H) as [b ->]. exists b. reflexivity.
Qed.

Lemma prefix_extends (n h y : string) :
  String.prefix n h = true -> String.prefix n (h +++ y) = true.
Proof.
  revert h; induction n as [|c n IH]; intros h H.
  - now destruct (h +++ y).
  - destruct h as [|d h]; cbn [String.prefix] in H; [discriminate|].
    cbn [String.append String.prefix].
    destruct (ascii_dec c d); [now apply IH|discriminate].
Qed.

Lemma prefix_blocked_by_dot (m a y : string) :
  has_char "."%char m = false ->
  String.prefix m a = false ->
  String.prefix m (a +++ String "."%char y) = false.
Proof.
  revert a; induction m as [|x m IH]; intros a Hm H.
  - now destruct a.
  - cbn [has_char] in Hm. apply orb_false_iff in Hm as [Hx Hm].
    destruct a as [|c a]; cbn [String.append String.prefix] in H |- *.
    + destruct (ascii_dec x "."%char) as [->|]; [discriminate|reflexivity].
    + destruct (ascii_dec x c); [now apply IH|reflexivity].
Qed.

Lemma substring_prefix (a x : string) :
  String.substring 0 (String.length a) (a +++ x) = a.
Proof.
  induction a as [|c a IH]; cbn.
  - now destruct x.
  - now rewrite IH.
Qed.

Lemma strstr_found (h n : string) (k : nat) :
  n <> EmptyString ->
  strstr h n = Some k ->
  exists a b,
    h = a +++ n +++ b /\ String.length a = k /\ strstr a n = None.
Proof.
  intros Hn. revert k; induction h as [|c h IH]; intros k H.
  - cbn [strstr] in H. destruct (String.prefix n EmptyString) eqn:Hp;
      [|discriminate].
    destruct n; [congruence|discriminate].
  - cbn [strstr] in H. destruct (String.prefix n (String c h)) eqn:Hp.
    + injection H as <-. destruct (prefix_split _ _ Hp) as [b Hb].
      exists EmptyString, b. split; [exact Hb|]. split; [reflexivity|].
      destruct n; [congruence|reflexivity].
    + destruct (strstr h n) as [k'|] eqn:Hs; [|discriminate].
      injection H as <-.
      destruct (IH k' eq_refl) as (a & b & -> & Hl & Ha).
      exists (String c a), b. split; [reflexivity|].
      split; [cbn; now rewrite Hl|].
      cbn [strstr]. rewrite Ha.
      destruct (String.prefix n (String c a)) eqn:Hpa; [|reflexivity].
      apply (prefix_extends _ _ (n +++ b)) in Hpa.
      cbn [String.append] in Hpa. congruence.
Qed.

Lemma strstr_exe_first (a b : string) :
  strstr a ".exe" = None ->
  strstr (a +++ ".exe" +++ b) ".exe" = Some (String.length a).
Proof.
  induction a as [|c a IH]; intros H.
  - destruct b; reflexivity.
  - cbn [strstr] in H.
    destruct (String.prefix ".exe" (String c a)) eqn:Hp; [discriminate|].
    destruct (strstr a ".exe") eqn:Hs; [discriminate|].
    change (String c a +++ ".exe" +++ b)
      with (String c (a +++ ".exe" +++ b)).
    cbn [strstr String.length].
    rewrite (IH eq_refl). cbn [option_map].
    replace (String.prefix ".exe" (String c (a +++ ".exe" +++ b)))
      with false; [reflexivity|].
    symmetry. cbn [String.prefix] in Hp |- *.
    destruct (ascii_dec "."%char c); [|reflexivity].
    apply (prefix_blocked_by_dot "exe" a ("exe" +++ b)); [reflexivity|exact Hp].
Qed.

Lemma cut_at_first_exe (a b : string) :
  strstr a ".exe" = None ->
  main_PROGRAM_NAME (a +++ ".exe" +++ b) = a.
Proof.
  intros H. unfold main_PROGRAM_NAME.
  rewrite (strstr_exe_first a b H). apply substring_prefix.
Qed.

(** The program name is the base name cut at the first [.exe], wherever that
    stands: of [a.exe] and of [a.exe.old] alike it is [a]. *)
Theorem program_name_cut_at_first_exe (a b : string) :
  strstr a ".exe" = None ->
  main_PROGRAM_NAME (a +++ ".exe" +++ b) = a.
Proof. apply cut_at_first_exe. Qed.

(** Whatever the base name is, the program name is a leading part of it
    and holds no [.exe]; a base name that holds none is kept as it is. *)
Theorem program_name_has_no_exe (base : string) :
  strstr (main_PROGRAM_NAME base) ".exe" = None
  /\ (exists rest, base = main_PROGRAM_NAME base +++ rest)
  /\ (strstr base ".exe" = None -> main_PROGRAM_NAME base = base).
Proof.
  destruct (strstr base ".exe") as [k|] eqn:Hs.
  - destruct (strstr_found base ".exe" k) as (a & b & -> & _ & Ha);
      [discriminate|exact Hs|].
    rewrite (cut_at_first_exe a b Ha).
    split; [exact Ha|]. split; [eauto|discriminate].
  - unfold main_PROGRAM_NAME. rewrite Hs.
    split; [exact Hs|]. split; [|reflexivity].
    exists EmptyString. clear Hs. induction base as [|c s IH]; cbn; congruence.
Qed.

(* ================================================================== *)
(** ** The file chooser button factory *)

Lemma last_value_snoc (key : string) (props : list GladeProperty)
    (p : GladeProperty) :
  last_value key (props ++ [p])
  = if String.eqb (name p) key then Some (value p) else last_value key props.
Proof.
  unfold last_value. rewrite rev_app_distr. cbn [rev app find].
  now destruct (String.eqb (name p) key).
Qed.

Section FileChooserFacts.

Variable atoi : string -> Z.

Lemma chooser_locals_after (props : list GladeProperty) :
  let l := fold_left (chooser_step atoi) props
             (mkChooser 0%Z GTK_FILE_CHOOSER_ACTION_OPEN None) in
  title l = last_value "title" props
  /\ action l = (if existsb asks_for_folder props
                 then GTK_FILE_CHOOSER_ACTION_SELECT_FOLDER
                 else GTK_FILE_CHOOSER_ACTION_OPEN)
  /\ width_chars l = match last_value "width_chars" props with
                     | Some v => atoi v
                     | None => 0%Z
                     end.
Proof.
  cbv zeta. induction props as [|p props (IHt & IHa & IHw)] using rev_ind.
  - repeat split.
  - rewrite fold_left_app, existsb_app, !last_value_snoc.
    cbn [fold_left existsb]. unfold chooser_step at 1 3 5, asks_for_folder.
    rewrite !strcmp_eqb, orb_false_r.
    destruct (String.eqb (name p) "width_chars") eqn:Hw.
    + apply String.eqb_eq in Hw. rewrite Hw.
      cbn [title action width_chars String.eqb Ascii.eqb Bool.eqb andb].
      rewrite orb_false_r. auto.
    + destruct (String.eqb (name p) "action") eqn:Ha.
      * apply String.eqb_eq in Ha. rewrite Ha.
        cbn [String.eqb Ascii.eqb Bool.eqb andb].
        destruct (String.eqb (value p) "GTK_FILE_CHOOSER_ACTION_SELECT_FOLDER");
          cbn [title action width_chars].
        -- rewrite orb_true_r. auto.
        -- rewrite orb_false_r. auto.
      * cbn [andb]. rewrite orb_false_r.
        destruct (String.eqb (name p) "title"); cbn [title action width_chars];
          auto.
Qed.

Lemma chooser_step_irrelevant (l : chooser_locals) (p : GladeProperty) :
  chooser_relevant p = false -> chooser_step atoi l p = l.
Proof.
  unfold chooser_relevant, asks_for_folder, chooser_step.
  rewrite !strcmp_eqb. intros H.
  apply orb_false_iff in H as [H Hf]. apply orb_false_iff in H as [-> ->].
  destruct (String.eqb (name p) "action"); [|reflexivity].
  cbn [andb] in Hf. now rewrite Hf.
Qed.

Lemma chooser_fold_filter (props : list GladeProperty) (l : chooser_locals) :
  fold_left (chooser_step atoi) (filter chooser_relevant props) l
  = fold_left (chooser_step atoi) props l.
Proof.
  revert l; induction props as [|p props IH]; intros l; [reflexivity|].
  cbn [filter fold_left]. destruct (chooser_relevant p) eqn:Hr.
  - cbn [fold_left]. apply IH.
  - rewrite (chooser_step_irrelevant l p Hr). apply IH.
Qed.

(** The button is created with the value of the last [title] property as
    title (the null pointer if there is none) and for selecting a folder as
    soon as one [action] property asks for that, for opening a file
    otherwise; it is shown; and its width is set, to what [atoi] makes of the
    last [width_chars] property, only when that is above zero. *)
Theorem file_chooser_button_calls (info : GladeWidgetInfo) :
  gui_GtkFileChooserButton atoi info
  = [GtkFileChooserButtonNew
       (last_value "title" (properties info))
       (if existsb asks_for_folder (properties info)
        then GTK_FILE_CHOOSER_ACTION_SELECT_FOLDER
        else GTK_FILE_CHOOSER_ACTION_OPEN);
     GtkWidgetShow]
    ++ match last_value "width_chars" (properties info) with
       | Some v => if (atoi v >? 0)%Z
                   then [GtkFileChooserButtonSetWidthChars (atoi v)]
                   else []
       | None => []
       end.
Proof.
  unfold gui_GtkFileChooserButton.
  destruct (chooser_locals_after (properties info)) as (-> & -> & ->).
  destruct (last_value "width_chars" (properties info)); reflexivity.
Qed.

(** Properties of other names, and [action] properties of any value but the
    one for selecting a folder, have no effect at all: no later property
    takes the button back to opening files. *)
Theorem file_chooser_button_ignores_the_rest (info : GladeWidgetInfo) :
  gui_GtkFileChooserButton atoi info
  = gui_GtkFileChooserButton atoi
      (mkInfo (filter chooser_relevant (properties info))).
Proof.
  unfold gui_GtkFileChooserButton. cbn [properties].
  now rewrite chooser_fold_filter.
Qed.

End FileChooserFacts.

(* ================================================================== *)
(** ** Splitting a property value into names *)

Lemma store_at (pre post : list cell) (c : cell) (p : option string) :
  store (pre ++ c :: post) (List.length pre) p
  = Some (pre ++ Pointer p :: post).
Proof.
  unfold store. rewrite length_app. cbn [List.length].
  replace (List.length pre <? List.length pre + S (List.length post))%nat
    with true by (symmetry; apply Nat.ltb_lt; lia).
  f_equal. induction pre as [|x pre IH]; [reflexivity|].
  cbn [List.length firstn skipn app]. f_equal. exact IH.
Qed.

Lemma store_past_end (pre : list cell) (p : option string) :
  store pre (List.length pre) p = None.
Proof. unfold store. now rewrite Nat.ltb_irrefl. Qed.

Section OneDelimiter.

Variable d : ascii.

Lemma is_delim_one (c : ascii) :
  is_delim c (String d EmptyString) = Ascii.eqb c d.
Proof. cbn. apply orb_false_r. Qed.

Lemma scan_split (s : string) :
  exists pieces,
    split_at d s = fst (scan_token (String d EmptyString) s) :: pieces
    /\ filter nonempty pieces
       = filter nonempty
           (split_at d (snd (scan_token (String d EmptyString) s)))
    /\ String.length (snd (scan_token (String d EmptyString) s))
       <= String.length s.
Proof.
  induction s as [|c s (pieces & Hs & Hf & Hl)].
  - exists []. repeat split; auto.
  - cbn [scan_token split_at]. rewrite is_delim_one.
    destruct (Ascii.eqb c d).
    + exists (split_at d s). cbn [fst snd String.length]. auto.
    + rewrite Hs.
      destruct (scan_token (String d EmptyString) s) as [t saved].
      cbn [fst snd String.length] in *. exists pieces. auto.
Qed.

(** What one call of [strtok] takes off the names still to come. *)
Lemma strtok_split (s : string) :
  match strtok s (String d EmptyString) with
  | (Some t, saved) =>
      filter nonempty (split_at d s)
      = t :: filter nonempty (split_at d saved)
      /\ String.length saved < String.length s
  | (None, saved) =>
      filter nonempty (split_at d s) = [] /\ saved = EmptyString
  end.
Proof.
  induction s as [|c s IH].
  - cbn. auto.
  - unfold strtok in *. cbn [skip_delims split_at]. rewrite is_delim_one.
    destruct (Ascii.eqb c d) eqn:Hc.
    + cbn [filter nonempty].
      destruct (skip_delims (String d EmptyString) s) as [|c' s'].
      * exact IH.
      * destruct (scan_token (String d EmptyString) (String c' s'))
          as [t saved].
        destruct IH as [IH1 IH2]. split; [exact IH1|]. cbn. lia.
    + cbn [scan_token]. rewrite is_delim_one, Hc.
      destruct (scan_split s) as (pieces & Hs & Hf & Hl).
      rewrite Hs.
      destruct (scan_token (String d EmptyString) s) as [t saved].
      cbn [fst snd] in *. cbn [filter nonempty String.length].
      split; [now rewrite Hf|lia].
Qed.

End OneDelimiter.

Lemma strtok_loop_names (fuel : nat) (saved : string)
    (pre post : list cell) :
  String.length saved < fuel ->
  strtok_loop fuel saved (pre ++ post) (List.length pre)
  = if (List.length (comma_names saved) <? List.length post)%nat
    then Done (pre ++ names_block (comma_names saved) post)
    else Undefined.
Proof.
  revert saved pre post; induction fuel as [|fuel IH];
    intros saved pre post Hfuel; [lia|].
  cbn [strtok_loop]. pose proof (strtok_split ","%char saved) as H.
  unfold comma_names.
  destruct (strtok saved ",") as [[t|] saved'].
  - destruct H as [-> Hlen]. destruct post as [|c post].
    + rewrite app_nil_r, store_past_end. reflexivity.
    + rewrite store_at.
      replace (pre ++ Pointer (Some t) :: post)
        with ((pre ++ [Pointer (Some t)]) ++ post)
        by (now rewrite <- app_assoc).
      replace (S (List.length pre))
        with (List.length (pre ++ [Pointer (Some t)]))
        by (rewrite length_app; cbn; lia).
      rewrite IH by lia. unfold comma_names. cbn [List.length].
      change (S (List.length (filter nonempty (split_at "," saved')))
              <? S (List.length post))%nat
        with (List.length (filter nonempty (split_at "," saved'))
              <? List.length post)%nat.
      destruct (List.length (filter nonempty (split_at "," saved'))
                <? List.length post)%nat; [|reflexivity].
      unfold names_block. cbn [map List.length skipn app].
      now rewrite <- app_assoc.
  - destruct H as [-> _]. destruct post as [|c post].
    + rewrite app_nil_r, store_past_end. reflexivity.
    + rewrite store_at. reflexivity.
Qed.

Lemma split_names_general (v : string) (block : list cell) :
  split_names v block
  = match block with
    | [] => Undefined
    | _ :: post =>
        if (List.length (comma_names (snd (strtok v nl)))
            <? List.length post)%nat
        then Done (Pointer (fst (strtok v nl))
                   :: names_block (comma_names (snd (strtok v nl))) post)
        else Undefined
    end.
Proof.
  unfold split_names. destruct (strtok v nl) as [t saved]. cbn [fst snd].
  destruct block as [|c post]; [reflexivity|].
  change (store (c :: post) 0 t) with (Some ([Pointer t] ++ post)).
  cbv iota beta.
  change 1 with (List.length [Pointer t]) at 1.
  rewrite strtok_loop_names by lia. reflexivity.
Qed.

Lemma scan_line (f rest : string) :
  has_char (ascii_of_nat 10) f = false ->
  scan_token nl (f +++ nl +++ rest) = (f, rest).
Proof.
  induction f as [|c f IH]; intros H.
  - reflexivity.
  - cbn [has_char] in H. apply orb_false_iff in H as [Hc Hf].
    cbn [String.append scan_token]. unfold nl at 1. rewrite is_delim_one, Hc.
    now rewrite (IH Hf).
Qed.

Lemma scan_no_delim (f : string) :
  has_char (ascii_of_nat 10) f = false ->
  scan_token nl f = (f, EmptyString).
Proof.
  induction f as [|c f IH]; intros H.
  - reflexivity.
  - cbn [has_char] in H. apply orb_false_iff in H as [Hc Hf].
    cbn [scan_token]. unfold nl at 1. rewrite is_delim_one, Hc.
    now rewrite (IH Hf).
Qed.

Lemma strtok_first_line (first rest : string) :
  nonempty first = true ->
  has_char (ascii_of_nat 10) first = false ->
  strtok (first +++ nl +++ rest) nl = (Some first, rest).
Proof.
  intros Hn Hc. destruct first as [|c f]; [discriminate|].
  pose proof (scan_line (String c f) rest Hc) as Hs.
  cbn [has_char] in Hc. apply orb_false_iff in Hc as [Hc _].
  unfold strtok. cbn [String.append skip_delims] in *.
  unfold nl at 1. rewrite is_delim_one, Hc. now rewrite Hs.
Qed.

Lemma strtok_single_line (v : string) :
  nonempty v = true ->
  has_char (ascii_of_nat 10) v = false ->
  strtok v nl = (Some v, EmptyString).
Proof.
  intros Hn Hc. destruct v as [|c f]; [discriminate|].
  pose proof (scan_no_delim (String c f) Hc) as Hs.
  cbn [has_char] in Hc. apply orb_false_iff in Hc as [Hc _].
  unfold strtok. cbn [skip_delims].
  unfold nl at 1. rewrite is_delim_one, Hc. now rewrite Hs.
Qed.

Lemma strtok_leading_newline (v : string) :
  strtok (nl +++ v) nl = strtok v nl.
Proof. reflexivity. Qed.

Lemma strtok_blank (v : string) :
  blank v = true -> strtok v nl = (None, EmptyString).
Proof.
  induction v as [|c v IH]; intros H; [reflexivity|].
  cbn [blank] in H. apply andb_true_iff in H as [Hc Hv].
  apply Ascii.eqb_eq in Hc. subst c. exact (IH Hv).
Qed.

Lemma split_names_first_line (first rest : string) (block : list cell) :
  nonempty first = true ->
  has_char (ascii_of_nat 10) first = false ->
  split_names (first +++ nl +++ rest) block
  = if (List.length (first :: comma_names rest) <? List.length block)%nat
    then Done (names_block (first :: comma_names rest) block)
    else Undefined.
Proof.
  intros Hn Hc. rewrite split_names_general.
  rewrite (strtok_first_line first rest Hn Hc). cbn [fst snd].
  destruct block as [|c post]; reflexivity.
Qed.

(** A value whose first line is a name and that goes on after the line
    feed: the names are that line and the non-empty pieces between the commas
    of all the rest (further line feeds included).  They are stored from the
    start of the block, with a null pointer after them, and what the block
    held further on stays; when the names fill the block or more, a pointer
    is written past its end. *)
Theorem split_names_lines (first rest : string) (block : list cell) :
  nonempty first = true ->
  has_char (ascii_of_nat 10) first = false ->
  split_names (first +++ nl +++ rest) block
  = if (List.length (first :: comma_names rest) <? List.length block)%nat
    then Done (names_block (first :: comma_names rest) block)
    else Undefined.
Proof. apply split_names_first_line. Qed.

(** A value with no line feed in it is one name, commas or not. *)
Theorem split_names_single_line (v : string) (block : list cell) :
  nonempty v = true ->
  has_char (ascii_of_nat 10) v = false ->
  split_names v block
  = if (1 <? List.length block)%nat
    then Done (Pointer (Some v) :: Pointer None :: skipn 2 block)
    else Undefined.
Proof.
  intros Hn Hc. rewrite split_names_general.
  rewrite (strtok_single_line v Hn Hc). cbn [fst snd].
  destruct block as [|c [|c' post]]; reflexivity.
Qed.

(** Line feeds at the start of a value are passed over; and a value of
    nothing but line feeds, the empty one among them, gives no name: the
    block then starts with two null pointers. *)
Theorem split_names_blank (v : string) (block : list cell) :
  split_names (nl +++ v) block = split_names v block
  /\ (blank v = true ->
      split_names v block
      = if (1 <? List.length block)%nat
        then Done (Pointer None :: Pointer None :: skipn 2 block)
        else Undefined).
Proof.
  split.
  - rewrite !split_names_general. now rewrite strtok_leading_newline.
  - intros Hb. rewrite split_names_general, (strtok_blank v Hb).
    destruct block as [|c [|c' post]]; reflexivity.
Qed.

(* ================================================================== *)
(** ** The about dialog factory *)

Lemma text_of_snoc (key : string) (props : list GladeProperty)
    (p : GladeProperty) :
  text_of key (props ++ [p])
  = if String.eqb (name p) key then value p else text_of key props.
Proof.
  unfold text_of. rewrite last_value_snoc.
  now destruct (String.eqb (name p) key).
Qed.

Lemma about_loop_snoc (props : list GladeProperty) (p : GladeProperty)
    (l0 : about_locals) :
  about_loop (props ++ [p]) l0
  = match about_loop props l0 with
    | Done l => about_step l p
    | Undefined => Undefined
    | NoFuel => NoFuel
    end.
Proof.
  revert l0; induction props as [|q props IH]; intros l0; cbn [app about_loop].
  - now destruct (about_step l0 p).
  - destruct (about_step l0 q); auto.
Qed.

Lemma split_names_cases (v : string) (block : list cell) :
  split_names v block = Undefined
  \/ exists block',
       split_names v block = Done block'
       /\ List.length block' = List.length block.
Proof.
  rewrite split_names_general. destruct block as [|c post]; [now left|].
  destruct (List.length (comma_names (snd (strtok v nl)))
            <? List.length post)%nat eqn:Hlt; [|now left].
  right. eexists. split; [reflexivity|].
  apply Nat.ltb_lt in Hlt. unfold names_block.
  cbn [List.length]. rewrite length_app, length_map. cbn [List.length].
  rewrite length_skipn. lia.
Qed.

(** Take the comparisons of [about_step] one after the other. *)
Ltac about_cases p H :=
  unfold about_step in H; rewrite !strcmp_eqb in H;
  repeat match type of H with
    | context [if String.eqb (name p) ?k then _ else _] =>
        let Hk := fresh "Hk" in
        destruct (String.eqb (name p) k) eqn:Hk; cbv iota in H
    end.

Lemma about_step_lengths (l l' : about_locals) (p : GladeProperty) :
  about_step l p = Done l' ->
  List.length (authors l') = List.length (authors l)
  /\ List.length (documenters l') = List.length (documenters l).
Proof.
  intros H. about_cases p H;
    try (injection H as <-; now split).
  - destruct (split_names_cases (value p) (authors l))
      as [Hu|(b & Hb & Hl)]; rewrite ?Hu, ?Hb in H; try discriminate.
    injection H as <-. now split.
  - destruct (split_names_cases (value p) (documenters l))
      as [Hu|(b & Hb & Hl)]; rewrite ?Hu, ?Hb in H; try discriminate.
    injection H as <-. now split.
Qed.

Lemma about_step_no_fuel (l : about_locals) (p : GladeProperty) :
  about_step l p <> NoFuel.
Proof.
  intros H. about_cases p H; try discriminate.
  - destruct (split_names_cases (value p) (authors l))
      as [Hu|(b & Hb & Hl)]; rewrite ?Hu, ?Hb in H; discriminate.
  - destruct (split_names_cases (value p) (documenters l))
      as [Hu|(b & Hb & Hl)]; rewrite ?Hu, ?Hb in H; discriminate.
Qed.

Lemma about_step_texts (l l' : about_locals) (p : GladeProperty) :
  about_step l p = Done l' ->
  let pick key old := if String.eqb (name p) key then value p else old in
  program_name l' = pick "program_name" (program_name l)
  /\ version l' = pick "version" (version l)
  /\ comments l' = pick "comments" (comments l)
  /\ license l' = pick "license" (license l)
  /\ website l' = pick "website" (website l)
  /\ website_label l' = pick "website_label" (website_label l).
Proof.
  intros H. cbv zeta.
  about_cases p H;
    repeat match goal with
      | Hk : String.eqb (name p) _ = true |- _ =>
          apply String.eqb_eq in Hk; rewrite Hk in *; clear Hk
      | Hk : String.eqb (name p) _ = false |- _ =>
          rewrite ?Hk; clear Hk
      end;
    cbn [String.eqb Ascii.eqb Bool.eqb];
    try (injection H as <-; repeat split).
  - destruct (split_names (value p) (authors l)); try discriminate.
    injection H as <-. repeat split.
  - destruct (split_names (value p) (documenters l)); try discriminate.
    injection H as <-. repeat split.
Qed.

Lemma about_loop_done (props : list GladeProperty) (l : about_locals) :
  about_loop props about_start = Done l ->
  program_name l = text_of "program_name" props
  /\ version l = text_of "version" props
  /\ comments l = text_of "comments" props
  /\ license l = text_of "license" props
  /\ website l = text_of "website" props
  /\ website_label l = text_of "website_label" props
  /\ List.length (authors l) = 30
  /\ List.length (documenters l) = 30.
Proof.
  revert l; induction props as [|p props IH] using rev_ind; intros l H.
  - injection H as <-. repeat split.
  - rewrite about_loop_snoc in H.
    destruct (about_loop props about_start) as [l0| |]; try discriminate.
    destruct (IH l0 eq_refl) as (H1 & H2 & H3 & H4 & H5 & H6 & H7 & H8).
    destruct (about_step_texts _ _ _ H) as (T1 & T2 & T3 & T4 & T5 & T6).
    destruct (about_step_lengths _ _ _ H) as (L1 & L2).
    rewrite !text_of_snoc, T1, T2, T3, T4, T5, T6, L1, L2.
    rewrite H1, H2, H3, H4, H5, H6. repeat split; assumption.
Qed.

Lemma about_loop_no_fuel (props : list GladeProperty) (l : about_locals) :
  about_loop props l <> NoFuel.
Proof.
  revert l; induction props as [|p props IH]; intros l; cbn [about_loop].
  - discriminate.
  - pose proof (about_step_no_fuel l p).
    destruct (about_step l p); [apply IH|discriminate|congruence].
Qed.

Lemma about_step_keeps_authors (l l' : about_locals) (p : GladeProperty) :
  String.eqb (name p) "authors" = false ->
  about_step l p = Done l' -> authors l' = authors l.
Proof.
  intros Hn H. about_cases p H; try (now injection H as <-); try discriminate.
  destruct (split_names (value p) (documenters l)); try discriminate.
  now injection H as <-.
Qed.

Lemma about_step_keeps_documenters (l l' : about_locals) (p : GladeProperty) :
  String.eqb (name p) "documenters" = false ->
  about_step l p = Done l' -> documenters l' = documenters l.
Proof.
  intros Hn H. about_cases p H; try (now injection H as <-); try discriminate.
  destruct (split_names (value p) (authors l)); try discriminate.
  now injection H as <-.
Qed.

Lemma about_loop_keeps (props : list GladeProperty) (l l' : about_locals) :
  about_loop props l = Done l' ->
  (forallb (fun p => negb (String.eqb (name p) "authors")) props = true ->
   authors l' = authors l)
  /\ (forallb (fun p => negb (String.eqb (name p) "documenters")) props = true ->
      documenters l' = documenters l).
Proof.
  revert l; induction props as [|p props IH]; intros l H; cbn [about_loop] in H.
  - injection H as <-. auto.
  - destruct (about_step l p) as [l1| |] eqn:Hs; try discriminate.
    destruct (IH l1 H) as [IHa IHd]. cbn [forallb].
    split; intros Hall; apply andb_true_iff in Hall as [Hp Hrest];
      apply negb_true_iff in Hp.
    + rewrite (IHa Hrest). now apply (about_step_keeps_authors l l1 p).
    + rewrite (IHd Hrest). now apply (about_step_keeps_documenters l l1 p).
Qed.

Lemma about_step_overflow (l : about_locals) (p : GladeProperty)
    (first rest : string) :
  List.length (authors l) = 30 ->
  List.length (documenters l) = 30 ->
  name p = "authors" \/ name p = "documenters" ->
  value p = first +++ nl +++ rest ->
  nonempty first = true ->
  has_char (ascii_of_nat 10) first = false ->
  30 <= List.length (first :: comma_names rest) ->
  about_step l p = Undefined.
Proof.
  intros La Ld Hname Hv Hn Hc Hmany.
  assert (Hs : forall block, List.length block = 30 ->
                 split_names (value p) block = Undefined).
  { intros block Hb. rewrite Hv, (split_names_first_line first rest block Hn Hc).
    rewrite Hb.
    destruct (List.length (first :: comma_names rest) <? 30)%nat eqn:Hlt;
      [|reflexivity].
    apply Nat.ltb_lt in Hlt. lia. }
  unfold about_step. rewrite !strcmp_eqb.
  destruct Hname as [-> | ->]; cbn [String.eqb Ascii.eqb Bool.eqb];
    now rewrite Hs.
Qed.

Lemma about_loop_overflow (props : list GladeProperty) (l : about_locals)
    (p : GladeProperty) (first rest : string) :
  List.length (authors l) = 30 ->
  List.length (documenters l) = 30 ->
  In p props ->
  name p = "authors" \/ name p = "documenters" ->
  value p = first +++ nl +++ rest ->
  nonempty first = true ->
  has_char (ascii_of_nat 10) first = false ->
  30 <= List.length (first :: comma_names rest) ->
  about_loop props l = Undefined.
Proof.
  intros La Ld Hin Hname Hv Hn Hc Hmany.
  revert l La Ld; induction props as [|q props IH]; intros l La Ld;
    [destruct Hin|].
  cbn [about_loop]. destruct Hin as [->|Hin].
  - now rewrite (about_step_overflow l p first rest).
  - destruct (about_step l q) as [l1| |] eqn:Hs.
    + destruct (about_step_lengths _ _ _ Hs) as [L1 L2].
      apply (IH Hin); congruence.
    + reflexivity.
    + now apply about_step_no_fuel in Hs.
Qed.

(** The factory either writes past the end of one of its two blocks, or
    makes these ten calls: the dialog is created; its program name is the
    global [PROGRAM_NAME] whenever that is not the null pointer, whatever the
    [program_name] property says; version, comments, license, website and
    website label are each the value of the last property of that name, or
    empty; the two blocks of 30 cells are handed over; the documenters block
    is freed.  The iteration bound of the embedding is never what stops it. *)
Theorem about_dialog_calls (PROGRAM_NAME : option string)
    (info : GladeWidgetInfo) :
  gui_GtkAboutDialog PROGRAM_NAME info = Undefined
  \/ exists a d,
       List.length a = 30 /\ List.length d = 30
       /\ gui_GtkAboutDialog PROGRAM_NAME info
          = Done [ GtkAboutDialogNew;
                   GtkAboutDialogSetProgramName
                     (match PROGRAM_NAME with
                      | Some n => n
                      | None => text_of "program_name" (properties info)
                      end);
                   GtkAboutDialogSetVersion
                     (text_of "version" (properties info));
                   GtkAboutDialogSetComments
                     (text_of "comments" (properties info));
                   GtkAboutDialogSetLicense
                     (text_of "license" (properties info));
                   GtkAboutDialogSetWebsite
                     (text_of "website" (properties info));
                   GtkAboutDialogSetWebsiteLabel
                     (text_of "website_label" (properties info));
                   GtkAboutDialogSetAuthors a;
                   GtkAboutDialogSetDocumenters d;
                   FreeDocumenters ].
Proof.
  unfold gui_GtkAboutDialog.
  destruct (about_loop (properties info) about_start) as [l| |] eqn:Hl.
  - right.
    destruct (about_loop_done _ _ Hl)
      as (<- & <- & <- & <- & <- & <- & La & Ld).
    exists (authors l), (documenters l). auto.
  - now left.
  - now apply about_loop_no_fuel in Hl.
Qed.

(** Without a property called [authors] the block handed over as the list
    of authors is the block as [malloc] gave it, no cell ever written, not
    even a null pointer to end it; the same for [documenters]. *)
Theorem about_dialog_unwritten_blocks (PROGRAM_NAME : option string)
    (info : GladeWidgetInfo) (calls : list gtk_call) :
  gui_GtkAboutDialog PROGRAM_NAME info = Done calls ->
  (forallb (fun p => negb (String.eqb (name p) "authors")) (properties info)
   = true ->
   In (GtkAboutDialogSetAuthors (repeat Uninitialised 30)) calls)
  /\ (forallb (fun p => negb (String.eqb (name p) "documenters"))
        (properties info) = true ->
      In (GtkAboutDialogSetDocumenters (repeat Uninitialised 30)) calls).
Proof.
  unfold gui_GtkAboutDialog.
  destruct (about_loop (properties info) about_start) as [l| |] eqn:Hl;
    try discriminate.
  intros H. injection H as <-.
  destruct (about_loop_keeps _ _ _ Hl) as [Ha Hd].
  split; intros Hall.
  - rewrite (Ha Hall). cbn. tauto.
  - rewrite (Hd Hall). cbn. tauto.
Qed.

(** An [authors] or [documenters] property whose value lists 30 names or
    more (a first line, then names between commas) makes the factory write a
    pointer past the end of its block of 30 cells. *)
Theorem about_dialog_overflow (PROGRAM_NAME : option string)
    (info : GladeWidgetInfo) (p : GladeProperty) (first rest : string) :
  In p (properties info) ->
  name p = "authors" \/ name p = "documenters" ->
  value p = first +++ nl +++ rest ->
  nonempty first = true ->
  has_char (ascii_of_nat 10) first = false ->
  30 <= List.length (first :: comma_names rest) ->
  gui_GtkAboutDialog PROGRAM_NAME info = Undefined.
Proof.
  intros Hin Hname Hv Hn Hc Hmany. unfold gui_GtkAboutDialog.
  now rewrite (about_loop_overflow (properties info) about_start p first rest).
Qed.

(* ================================================================== *)
(** ** The further properties at concrete inputs *)

Example names_on_two_lines :
  split_names ("A. Author" +++ nl +++ "B. Author,,C. Author" +++ nl +++ "D")
              (malloc_pointers 5)
  = Done [Pointer (Some "A. Author"); Pointer (Some "B. Author");
          Pointer (Some ("C. Author" +++ nl +++ "D")); Pointer None;
          Uninitialised].
Proof. reflexivity. Qed.

Example chooser_for_folders :
  gui_GtkFileChooserButton (fun _ => 12%Z)
    (mkInfo [mkProperty "action" "GTK_FILE_CHOOSER_ACTION_SELECT_FOLDER";
             mkProperty "visible" "True";
             mkProperty "action" "GTK_FILE_CHOOSER_ACTION_OPEN";
             mkProperty "width_chars" "12"])
  = [GtkFileChooserButtonNew None GTK_FILE_CHOOSER_ACTION_SELECT_FOLDER;
     GtkWidgetShow; GtkFileChooserButtonSetWidthChars 12].
Proof. reflexivity. Qed.

Lemma parser_reads_within_argc_witness :
  1 <= List.length ["model.phoebe"; "-h"]
  /\ parse_startup_line sample_env 2 ["phoebe-gui"; "model.phoebe"; "-h"]
       empty_world
     = parse_startup_line sample_env 2
         ("phoebe" :: firstn 1 ["model.phoebe"; "-h"]) empty_world.
Proof.
  split; [apply Nat.leb_le; reflexivity|].
  apply (parser_reads_within_argc sample_env "phoebe-gui" "phoebe"
           ["model.phoebe"; "-h"] 1 empty_world).
  apply Nat.leb_le; reflexivity.
Defined.

Lemma switch_exit_follows_gui_init_witness :
  let argv := ["phoebe-gui"; "model.phoebe"; "-v"; "other.phoebe"] in
  let args := tl (gtk_init_argv sample_env argv) in
  phoebe_init_status sample_env = SUCCESS
  /\ existsb is_quit args = true
  /\ exists text,
       quit_calls sample_env args = text ++ [EvPhoebeQuit]
       /\ forallb (fun e => match e with EvPrintf _ => true | _ => false end)
            text = true
       /\ fst (main sample_env argv empty_world) = Exited 0%Z
       /\ emitted_by sample_env argv empty_world
            (boot_calls
             ++ [confirm_on_overwrite_option; beep_after_plot_and_fit_option;
                 EvPhoebeConfigure; EvPhoebeGuiInit]
             ++ flat_map (load_calls sample_env) (opened_paths args)
             ++ text ++ [EvPhoebeQuit]).
Proof.
  cbv zeta. split; [reflexivity|]. split; [reflexivity|].
  apply (switch_exit_follows_gui_init sample_env
           ["phoebe-gui"; "model.phoebe"; "-v"; "other.phoebe"] empty_world);
    reflexivity.
Defined.

Lemma complete_run_witness :
  let argv := ["phoebe-gui"; "-x"; "model.phoebe"] in
  phoebe_init_status sample_env = SUCCESS
  /\ existsb is_quit (tl (gtk_init_argv sample_env argv)) = false
  /\ main sample_env argv empty_world
     = (Exited 0%Z,
        mkWorld (setup_calls
                 ++ [EvOpenParameterFile "model.phoebe";
                     EvReinitTreeviews; EvSetValuesToWidgets;
                     EvGtkMain; EvPhoebeGuiQuit; EvPhoebeQuit])
                true (Some "model.phoebe")).
Proof.
  cbv zeta. split; [reflexivity|]. split; [reflexivity|].
  apply (complete_run sample_env ["phoebe-gui"; "-x"; "model.phoebe"]
           empty_world); reflexivity.
Defined.

Lemma event_loop_and_gui_teardown_witness :
  let es := setup_calls ++ [EvGtkMain; EvPhoebeGuiQuit; EvPhoebeQuit] in
  emitted_by sample_env ["phoebe-gui"] empty_world es
  /\ (In EvGtkMain es
      <-> phoebe_init_status sample_env = SUCCESS
          /\ existsb is_quit (tl (gtk_init_argv sample_env ["phoebe-gui"]))
             = false)
  /\ (In EvPhoebeGuiQuit es
      <-> phoebe_init_status sample_env = SUCCESS
          /\ existsb is_quit (tl (gtk_init_argv sample_env ["phoebe-gui"]))
             = false
          /\ gtk_main_returns sample_env = true).
Proof.
  cbv zeta. split; [reflexivity|].
  apply (event_loop_and_gui_teardown sample_env ["phoebe-gui"] empty_world).
  reflexivity.
Defined.

Lemma program_name_cut_at_first_exe_witness :
  strstr "phoebe-gui" ".exe" = None
  /\ main_PROGRAM_NAME ("phoebe-gui" +++ ".exe" +++ ".old.exe") = "phoebe-gui".
Proof.
  split; [reflexivity|].
  apply (program_name_cut_at_first_exe "phoebe-gui" ".old.exe").
  reflexivity.
Defined.

Lemma program_name_has_no_exe_witness :
  strstr "phoebe-gui" ".exe" = None
  /\ main_PROGRAM_NAME "phoebe-gui" = "phoebe-gui".
Proof.
  split; [reflexivity|].
  apply (program_name_has_no_exe "phoebe-gui"). reflexivity.
Defined.

Lemma split_names_lines_witness :
  nonempty "A. Author" = true
  /\ has_char (ascii_of_nat 10) "A. Author" = false
  /\ split_names ("A. Author" +++ nl +++ "B. Author, C. Author")
       (malloc_pointers 30)
     = Done (Pointer (Some "A. Author") :: Pointer (Some "B. Author")
             :: Pointer (Some " C. Author") :: Pointer None
             :: repeat Uninitialised 26).
Proof.
  split; [reflexivity|]. split; [reflexivity|].
  apply (split_names_lines "A. Author" "B. Author, C. Author"
           (malloc_pointers 30)); reflexivity.
Defined.

Lemma split_names_single_line_witness :
  nonempty "A. Author, B. Author" = true
  /\ has_char (ascii_of_nat 10) "A. Author, B. Author" = false
  /\ split_names "A. Author, B. Author" (malloc_pointers 30)
     = Done (Pointer (Some "A. Author, B. Author") :: Pointer None
             :: repeat Uninitialised 28).
Proof.
  split; [reflexivity|]. split; [reflexivity|].
  apply (split_names_single_line "A. Author, B. Author" (malloc_pointers 30));
    reflexivity.
Defined.

Lemma split_names_blank_witness :
  blank (nl +++ nl) = true
  /\ split_names (nl +++ nl) (malloc_pointers 30)
     = Done (Pointer None :: Pointer None :: repeat Uninitialised 28).
Proof.
  split; [reflexivity|].
  apply (split_names_blank (nl +++ nl) (malloc_pointers 30)). reflexivity.
Defined.

Lemma about_dialog_unwritten_blocks_witness :
  let info := mkInfo [mkProperty "version" "0.31a";
                      mkProperty "documenters" "A. Writer"] in
  forallb (fun p => negb (String.eqb (name p) "authors")) (properties info)
  = true
  /\ In (GtkAboutDialogSetAuthors (repeat Uninitialised 30))
       [ GtkAboutDialogNew;
         GtkAboutDialogSetProgramName "phoebe-gui";
         GtkAboutDialogSetVersion "0.31a";
         GtkAboutDialogSetComments EmptyString;
         GtkAboutDialogSetLicense EmptyString;
         GtkAboutDialogSetWebsite EmptyString;
         GtkAboutDialogSetWebsiteLabel EmptyString;
         GtkAboutDialogSetAuthors (repeat Uninitialised 30);
         GtkAboutDialogSetDocumenters
           (Pointer (Some "A. Writer") :: Pointer None
            :: repeat Uninitialised 28);
         FreeDocumenters ].
Proof.
  cbv zeta. split; [reflexivity|].
  apply (about_dialog_unwritten_blocks (Some "phoebe-gui")
           (mkInfo [mkProperty "version" "0.31a";
                    mkProperty "documenters" "A. Writer"]));
    reflexivity.
Defined.

Lemma about_dialog_overflow_witness :
  let rest := String.concat "," (repeat "b" 29) in
  let p := mkProperty "authors" ("A" +++ nl +++ rest) in
  30 <= List.length ("A" :: comma_names rest)
  /\ gui_GtkAboutDialog (Some "phoebe-gui")
       (mkInfo [mkProperty "version" "0.31a"; p])
     = Undefined.
Proof.
  cbv zeta. split; [apply Nat.leb_le; reflexivity|].
  apply (about_dialog_overflow (Some "phoebe-gui")
           (mkInfo [mkProperty "version" "0.31a";
                    mkProperty "authors"
                      ("A" +++ nl +++ String.concat "," (repeat "b" 29))])
           (mkProperty "authors"
              ("A" +++ nl +++ String.concat "," (repeat "b" 29)))
           "A" (String.concat "," (repeat "b" 29))).
  - right. left. reflexivity.
  - left. reflexivity.
  - reflexivity.
  - reflexivity.
  - reflexivity.
  - apply Nat.leb_le; reflexivity.
Defined.
